(** * portainer-xtc: the reconciler of [main.go], embedded and verified

    The program reads compose files laid out as [node/stack/docker-compose.yml],
    asks a Portainer server for its endpoints and stacks, and creates or updates
    one remote stack per local directory.  This file embeds the sequential core
    of [main.go] -- [idFromStack], [manageStack], [updateStack], [createStack],
    [doRequest], the start of [Run] and the body of its watch loop -- and
    settles, statement by statement, what the specification says about them.

    Conventions of the embedding:
    - a Go [string] and a Go [[]byte] are both a [string] of Rocq, that is a
      sequence of bytes; [string(sf)] is the identity;
    - a Go [int] is a [Z]: the program only stores, compares and prints
      integers, it never computes with them, so no wrap-around can occur;
    - a Go [map[string]T] is a [gmap string T];
    - a Go [error] is a value of [error], [nil] being [None] of [option error];
    - the file system and the HTTP transport live in an abstract world that
      every effectful function threads through; what a function did to it is
      kept as a trace of events. *)

From Stdlib Require Import ZArith Ascii.
From stdpp Require Import gmap strings pretty list.

Local Open Scope Z_scope.

(** ** Results of fallible library calls *)

(** Operands of the formatting functions.  An [error] records how the program
    built it: [Errorf format args] is [fmt.Errorf(format, args...)], and
    [ErrorfE format args err] is [fmt.Errorf(format, args..., err)], whose last
    operand is itself an error ([main.go] always passes it last, under [%w]).
    Errors handed back by [os], [net/http] and [encoding/json] are [LibError]. *)
Inductive operand : Type :=
  | Int (n : Z)
  | Str (s : string).

Inductive error : Type :=
  | LibError (msg : string)
  | Errorf (format : string) (args : list operand)
  | ErrorfE (format : string) (args : list operand) (err : error).

Inductive result (A : Type) : Type :=
  | Ok (a : A)
  | Err (e : error).
Arguments Ok {A} a.
Arguments Err {A} e.

(** ** The fragment of package [fmt] the program uses *)

Module fmt.

(** [%!verb(type=value)], what [fmt] prints for an operand of the wrong
    type. *)
Definition badVerb (verb : ascii) (a : operand) : string :=
  "%!" +:+ String verb "" +:+ "(" +:+
    match a with
    | Int n => "int=" +:+ pretty n
    | Str s => "string=" +:+ s
    end +:+ ")".

(** One operand under one verb.  Only the verbs [main.go] builds strings
    with are interpreted: [%d] on an integer prints it in decimal, with a
    leading minus sign when negative; [%s] on a string copies it; [%v]
    does either. *)
Definition printArg (verb : ascii) (a : operand) : string :=
  match a with
  | Int n =>
      if bool_decide (verb = "d"%char) || bool_decide (verb = "v"%char)
      then pretty n else badVerb verb a
  | Str s =>
      if bool_decide (verb = "s"%char) || bool_decide (verb = "v"%char)
      then s else badVerb verb a
  end.

Definition extraArg (a : operand) : string :=
  match a with
  | Int n => "int=" +:+ pretty n
  | Str s => "string=" +:+ s
  end.

Fixpoint extraArgs (args : list operand) : string :=
  match args with
  | [] => ""
  | [a] => extraArg a
  | a :: rest => extraArg a +:+ ", " +:+ extraArgs rest
  end.

(** Operands left over once the format is exhausted. *)
Definition extra (args : list operand) : string :=
  match args with
  | [] => ""
  | _ => "%!(EXTRA " +:+ extraArgs args +:+ ")"
  end.

(** [fmt.Sprintf]: the format is scanned from left to right, each [%]
    followed by a verb consumes the next operand, [%%] prints a percent sign.
    Flags, widths and the other verbs of [fmt] are outside this fragment. *)
Fixpoint Sprintf (format : string) (args : list operand) : string :=
  match format with
  | "" => extra args
  | String "%" "" => "%!(NOVERB)" +:+ extra args
  | String "%" (String verb rest) =>
      if bool_decide (verb = "%"%char) then String "%" (Sprintf rest args)
      else
        match args with
        | [] => "%!" +:+ String verb "" +:+ "(MISSING)" +:+ Sprintf rest []
        | a :: args' => printArg verb a +:+ Sprintf rest args'
        end
  | String c rest => String c (Sprintf rest args)
  end.

End fmt.

(** ** The fragment of package [strings] the program uses *)

Module strings.

(** [strings.Compare]: three-way comparison of two strings, byte by byte. *)
Fixpoint Compare (a b : string) : Z :=
  match a, b with
  | "", "" => 0
  | "", String _ _ => -1
  | String _ _, "" => 1
  | String x a', String y b' =>
      if (N_of_ascii x <? N_of_ascii y)%N then -1
      else if (N_of_ascii y <? N_of_ascii x)%N then 1
      else Compare a' b'
  end.

(** [strings.Split(s, sep)] for a separator of one byte, the only kind
    [main.go] passes: the segments of [s] between the occurrences of [sep],
    in order; a string without [sep] is its own single segment. *)
Fixpoint Split (s : string) (sep : ascii) : list string :=
  match s with
  | "" => [""]
  | String c rest =>
      if bool_decide (c = sep) then "" :: Split rest sep
      else
        match Split rest sep with
        | [] => [String c ""]
        | seg :: segs => String c seg :: segs
        end
  end.

(** [strings.HasSuffix]. *)
Definition HasSuffix (s suffix : string) : bool :=
  bool_decide (String.length suffix ≤ String.length s)%nat &&
  bool_decide
    (String.substring (String.length s - String.length suffix)
       (String.length suffix) s = suffix).

End strings.

(** ** Data model *)

Module Stack.
Record t : Type := mk {
  ID : Z;
  Name : string;
  Status : Z;
  EndpointId : Z;
}.
(** [Stack{}], the zero value. *)
Definition zero : t := {| ID := 0; Name := ""; Status := 0; EndpointId := 0 |}.
End Stack.

Module Endpoint.
Record t : Type := mk {
  ID : Z;
  Name : string;
}.
End Endpoint.

Abbreviation StacksResponse := (list Stack.t).
Abbreviation Endpoints := (list Endpoint.t).

Module CreateStackRequest.
Record t : Type := mk {
  Name : string;
  StackFileContent : string;
}.
Definition zero : t := {| Name := ""; StackFileContent := "" |}.
End CreateStackRequest.

Module BodyComposeUpdate.
Record t : Type := mk {
  StackFileContent : string;
  PullImage : bool;
}.
End BodyComposeUpdate.

(** [Config] holds all configuration for the application. *)
Module Config.
Record t : Type := mk {
  PortainerAddress : string;
  APIKey : string;
  StackFilesDir : string;
  WatchStackdsDir : bool;
}.
End Config.

(** [DefaultConfig] is a configuration with default values. *)
Definition DefaultConfig : Config.t :=
  {| Config.PortainerAddress := "";
     Config.APIKey := "";
     Config.StackFilesDir := "./stacks/";
     Config.WatchStackdsDir := false |}.

Definition EndpointsURL (c : Config.t) : string :=
  fmt.Sprintf "%s/api/%s" [Str (Config.PortainerAddress c); Str "endpoints"].

Definition StacksURL (c : Config.t) : string :=
  fmt.Sprintf "%s/api/%s" [Str (Config.PortainerAddress c); Str "stacks"].

Definition idFromStack (s : Stack.t) : string :=
  fmt.Sprintf "%d-%s" [Int (Stack.EndpointId s); Str (Stack.Name s)].


(** ** Effects

    [Platform World] gathers what the program asks of its libraries.  The
    world-changing calls take the world and hand back the changed world; the
    pure ones ([url.Parse] inside [http.NewRequest], [encoding/json]) are
    functions.  Nothing is assumed about any of them. *)

Module Request.
Record t : Type := mk {
  Method : string;
  URL : string;
  Header : list (string * string);
  Body : option string;
}.
End Request.

(** [encoding/json] for one Go type: [json.Marshal] and the decoding of a
    response body by [json.NewDecoder(body).Decode]. *)
Class JSON (T : Type) : Type := {
  Marshal : T → result string;
  Decode : string → result T;
}.

Class Platform (World : Type) : Type := {
  (** [os.ReadFile]: the bytes of the file. *)
  os_ReadFile : string → World → result string * World;
  (** [os.ReadDir]: the names of the entries. *)
  os_ReadDir : string → World → result (list string) * World;
  (** [Do] of the [client.HTTPClient]: the body of the response; the program
      never looks at the status code. *)
  client_Do : Request.t → World → result string * World;
  (** The parsing of the URL inside [http.NewRequest]: [None] when it is
      accepted. *)
  url_Parse : string → option error;
  json_Endpoints :: JSON Endpoints;
  json_StacksResponse :: JSON StacksResponse;
  json_CreateStackRequest :: JSON CreateStackRequest.t;
  json_BodyComposeUpdate :: JSON BodyComposeUpdate.t;
}.

(** What a run leaves behind, in order: file and directory reads, HTTP
    requests sent, and log lines ([PrintfE] when the last operand of
    [log.Printf] is an error). *)
Inductive Event : Type :=
  | ReadFile (path : string)
  | ReadDir (path : string)
  | Do (req : Request.t)
  | Printf (format : string) (args : list operand)
  | PrintfE (format : string) (args : list operand) (err : error).

(** The command line as [pflag.Parse] sees it: the flags that were given. *)
Module Flags.
Record t : Type := mk {
  portainer_address : option string;
  api_key : option string;
  stack_files_dir : option string;
  watch_stacks_dir : option bool;
}.
End Flags.

Definition NewConfigFromFlags (args : Flags.t) : Config.t :=
  let cfg := DefaultConfig in
  let cfg :=
    {| Config.PortainerAddress :=
         default (Config.PortainerAddress cfg) (Flags.portainer_address args);
       Config.APIKey := default (Config.APIKey cfg) (Flags.api_key args);
       Config.StackFilesDir :=
         default (Config.StackFilesDir cfg) (Flags.stack_files_dir args);
       Config.WatchStackdsDir :=
         default (Config.WatchStackdsDir cfg) (Flags.watch_stacks_dir args) |} in
  if negb (strings.HasSuffix (Config.StackFilesDir cfg) "/") then
    {| Config.PortainerAddress := Config.PortainerAddress cfg;
       Config.APIKey := Config.APIKey cfg;
       Config.StackFilesDir := Config.StackFilesDir cfg +:+ "/";
       Config.WatchStackdsDir := Config.WatchStackdsDir cfg |}
  else cfg.

(** What [Run] holds when it reaches the call of [traverseNodes]. *)
Module Started.
Record t : Type := mk {
  config : Config.t;
  endpointsByName : gmap string Endpoint.t;
  stacksById : gmap string Stack.t;
  nodes : list string;
}.
End Started.

Section Program.
Context {World : Type} `{!Platform World}.

(** A computation returns a value, the world it leaves and the events it
    caused, oldest first. *)
Definition M (A : Type) : Type := World → A * World * list Event.

Definition ret {A} (a : A) : M A := λ w, (a, w, []).

Definition bind {A B} (m : M A) (k : A → M B) : M B := λ w,
  let '(a, w1, t1) := m w in
  let '(b, w2, t2) := k a w1 in
  (b, w2, t1 ++ t2).

#[local] Notation "'let*' x ':=' m 'in' k" := (bind m (λ x, k))
  (at level 10, x pattern, m at level 100, k at level 200, only parsing).

Definition emit (e : Event) : M () := λ w, ((), w, [e]).

Definition ReadFile_ (path : string) : M (result string) := λ w,
  let '(r, w') := os_ReadFile path w in (r, w', [ReadFile path]).

Definition ReadDir_ (path : string) : M (result (list string)) := λ w,
  let '(r, w') := os_ReadDir path w in (r, w', [ReadDir path]).

Definition Do_ (req : Request.t) : M (result string) := λ w,
  let '(r, w') := client_Do req w in (r, w', [Do req]).

(** [http.NewRequest]; the three method names the program passes are valid,
    so only the URL can be refused. *)
Definition NewRequest (method url : string) (body : option string)
    : result Request.t :=
  match url_Parse url with
  | Some err => Err err
  | None =>
      Ok {| Request.Method := method; Request.URL := url;
            Request.Header := []; Request.Body := body |}
  end.

(** [req.Header.Add]. *)
Definition Header_Add (req : Request.t) (key value : string) : Request.t :=
  {| Request.Method := Request.Method req; Request.URL := Request.URL req;
     Request.Header := Request.Header req ++ [(key, value)];
     Request.Body := Request.Body req |}.

(** [doRequest]: [res] is [None] for a nil [res], and [Some zero] for a
    pointer to a fresh variable; the result is the error, or the variable as
    the call leaves it. *)
Definition doRequest {T} `{!JSON T} (config : Config.t) (req : Request.t)
    (res : option T) : M (result (option T)) :=
  let req := Header_Add req "X-API-Key" (Config.APIKey config) in
  let* resp := Do_ req in
  match resp with
  | Err err => ret (Err (ErrorfE "failed to make POST request: %w" [] err))
  | Ok body =>
      match res with
      | Some _ =>
          match Decode body with
          | Err err => ret (Err (ErrorfE "could not decode response: %W" [] err))
          | Ok v => ret (Ok (Some v))
          end
      | None => ret (Ok None)
      end
  end.

(** [log.Printf] of an error that is not nil. *)
Definition logError (format : string) (err : option error) : M () :=
  match err with
  | Some e => emit (PrintfE format [] e)
  | None => ret ()
  end.

Definition updateStack (config : Config.t) (node stack : string)
    (endpoint : Endpoint.t) (sMap : gmap string Stack.t) : M (option error) :=
  let* sf := ReadFile_ (fmt.Sprintf "./stacks/%s/%s/docker-compose.yml"
                          [Str node; Str stack]) in
  match sf with
  | Err err =>
      ret (Some (ErrorfE "failed to read file './stacks/%s/%s/docker-compose.yml': %w"
                   [Str node; Str stack] err))
  | Ok sf =>
  match sMap !! fmt.Sprintf "%d-%s" [Int (Endpoint.ID endpoint); Str stack] with
  | None =>
      ret (Some (Errorf "stack %s not found on node %s" [Str stack; Str node]))
  | Some s =>
  (* fetch current stack and compare stackFile contents *)
  match NewRequest "GET"
          (fmt.Sprintf "http://portainer.b.brain/api/stacks/%d/file"
             [Int (Stack.ID s)]) None with
  | Err err =>
      ret (Some (ErrorfE "failed to create PUT request for stack update: %w" [] err))
  | Ok cr =>
  let* sfc := doRequest config cr (Some CreateStackRequest.zero) in
  match sfc with
  | Err err => ret (Some (ErrorfE "failed to create stack: %w" [] err))
  | Ok sfc =>
  let sfc := default CreateStackRequest.zero sfc in
  if bool_decide
       (strings.Compare (CreateStackRequest.StackFileContent sfc) sf = 0)
  then
    let* _ := emit (Printf "Skip identical: %s" [Str stack]) in
    ret None
  else
  match Marshal {| BodyComposeUpdate.StackFileContent := sf;
                   BodyComposeUpdate.PullImage := true |} with
  | Err err => ret (Some (ErrorfE "failed to marshal BodyComposeUpdate: %w" [] err))
  | Ok bodys =>
  match NewRequest "PUT"
          (fmt.Sprintf "http://portainer.b.brain/api/stacks/%d?endpointId=%d"
             [Int (Stack.ID s); Int (Endpoint.ID endpoint)]) (Some bodys) with
  | Err err =>
      ret (Some (ErrorfE "failed to create PUT request for stack update: %w" [] err))
  | Ok cr =>
  let* r := doRequest (T:=BodyComposeUpdate.t) config cr None in
  match r with
  | Err err => ret (Some (ErrorfE "failed to create stack: %w" [] err))
  | Ok _ => ret None
  end end end end end end end.

Definition createStack (config : Config.t) (node stack : string)
    (endpoint : Endpoint.t) : M (option error) :=
  let* sf := ReadFile_ (fmt.Sprintf "./stacks/%s/%s/docker-compose.yml"
                          [Str node; Str stack]) in
  match sf with
  | Err err =>
      ret (Some (ErrorfE "failed to read file './stacks/%s/%s/docker-compose.yml': %w"
                   [Str node; Str stack] err))
  | Ok sf =>
  let req := {| CreateStackRequest.Name := stack;
                CreateStackRequest.StackFileContent := sf |} in
  match Marshal req with
  | Err err => ret (Some (ErrorfE "failed to marshal CreateStackRequest: %w" [] err))
  | Ok s =>
  match NewRequest "POST"
          (fmt.Sprintf "http://portainer.b.brain/api/stacks?type=%d&method=%s&endpointId=%d"
             [Int 2; Str "string"; Int (Endpoint.ID endpoint)]) (Some s) with
  | Err err =>
      ret (Some (ErrorfE "failed to create POST request for stack creation: %w" [] err))
  | Ok cr =>
  let* r := doRequest (T:=CreateStackRequest.t) config cr None in
  match r with
  | Err err => ret (Some (ErrorfE "failed to create stack: %w" [] err))
  | Ok _ => ret None
  end end end end.

(** [manageStack]; the Go map [sMap] is shared with the caller and written
    in place, so the map the call leaves is what the caller goes on with. *)
Definition manageStack (config : Config.t) (node stack : string)
    (ers : gmap string Endpoint.t) (sMap : gmap string Stack.t)
    : M (gmap string Stack.t) :=
  match ers !! node with
  | Some v1 =>
      let stackID := fmt.Sprintf "%d-%s" [Int (Endpoint.ID v1); Str stack] in
      match sMap !! stackID with
      | Some _ =>
          let* _ := emit (Printf "update stack %s on node %s" [Str stack; Str node]) in
          let* err := updateStack config node stack v1 sMap in
          let* _ := logError "failed to update stack: %s" err in
          ret sMap
      | None =>
          let* _ := emit (Printf "create stack %s on node %s" [Str stack; Str node]) in
          let* err := createStack config node stack v1 in
          let* _ := logError "failed to create stack: %s" err in
          ret (<[stackID := Stack.zero]> sMap)
      end
  | None => ret sMap
  end.

(** [Run] from its first line to the call of [traverseNodes]: [Err e] where
    [Run] returns [e], [Ok st] where it reaches the fan-out holding [st].
    The fan-out itself runs [manageStack] from goroutines and is not part of
    this sequential embedding. *)
Definition Run_startup (args : Flags.t) : M (result Started.t) :=
  let config := NewConfigFromFlags args in
  if bool_decide (Config.PortainerAddress config = "") then
    ret (Err (Errorf "portainer-address must be set" []))
  else if bool_decide (Config.APIKey config = "") then
    ret (Err (Errorf "api-key must be set" []))
  else
  match NewRequest "GET" (EndpointsURL config) None with
  | Err err =>
      ret (Err (ErrorfE "failed to create new GET request for endpoints: %w" [] err))
  | Ok listR =>
  let* endpoints := doRequest (T:=Endpoints) config listR (Some []) in
  match endpoints with
  | Err err => ret (Err (ErrorfE "failed to create stack: %w" [] err))
  | Ok endpoints =>
  let endpoints := default [] endpoints in
  let endpointsByName :=
    foldl (λ m e, <[Endpoint.Name e := e]> m) ∅ endpoints in
  match NewRequest "GET" (StacksURL config) None with
  | Err err =>
      ret (Err (ErrorfE "failed to create new GET request for stacks: %w" [] err))
  | Ok listS =>
  let* stackListResp := doRequest (T:=StacksResponse) config listS (Some []) in
  match stackListResp with
  | Err err => ret (Err (ErrorfE "failed to list stacks: %w" [] err))
  | Ok stackListResp =>
  let stackListResp := default [] stackListResp in
  let stacksById :=
    foldl (λ m s, <[idFromStack s := s]> m) ∅ stackListResp in
  let* nodes := ReadDir_ (Config.StackFilesDir config) in
  match nodes with
  | Err err =>
      ret (Err (ErrorfE "failed to read directory '%s': %w"
                  [Str (Config.StackFilesDir config)] err))
  | Ok nodes =>
      ret (Ok {| Started.config := config;
                 Started.endpointsByName := endpointsByName;
                 Started.stacksById := stacksById;
                 Started.nodes := nodes |})
  end end end end end.

(** The body of the watch loop of [Run] for one event, [path] being
    [ei.Path()]. *)
Definition Run_watchEvent (config : Config.t) (path : string)
    (endpointsByName : gmap string Endpoint.t)
    (stacksById : gmap string Stack.t) : M (gmap string Stack.t) :=
  let pathSplit := strings.Split path "/" in
  if bool_decide (length pathSplit < 3)%nat then
    let* _ := emit (Printf "skip path: %s" [Str path]) in
    ret stacksById
  else
    let pathSplit := drop (length pathSplit - 3) pathSplit in
    let node := pathSplit !!! 0%nat in
    let stack := pathSplit !!! 1%nat in
    let* _ := emit (Printf "deploy: %s/%s" [Str node; Str stack]) in
    manageStack config node stack endpointsByName stacksById.

(** The watch loop of [Run] over the events received so far, oldest
    first. *)
Fixpoint Run_watch (config : Config.t) (events : list string)
    (endpointsByName : gmap string Endpoint.t)
    (stacksById : gmap string Stack.t) : M (gmap string Stack.t) :=
  match events with
  | [] => ret stacksById
  | path :: events' =>
      let* stacksById := Run_watchEvent config path endpointsByName stacksById in
      Run_watch config events' endpointsByName stacksById
  end.

End Program.

(** ** A small platform to run the program on

    One file tree, one table of bodies served to [GET] by URL, and a switch
    that makes the server refuse [PUT] and [POST].  The JSON encoders are
    stand-ins that keep the fields apart with a colon. *)

Module Demo.

Record World : Type := mk {
  disk : list (string * string);
  served : list (string * string);
  refuse_writes : bool;
}.

Fixpoint assoc (k : string) (l : list (string * string)) : option string :=
  match l with
  | [] => None
  | (k', v) :: l' => if bool_decide (k = k') then Some v else assoc k l'
  end.

Definition readFile (path : string) (w : World) : result string * World :=
  (match assoc path (disk w) with
   | Some content => Ok content
   | None => Err (LibError "no such file or directory")
   end, w).

Definition readDir (path : string) (w : World) : result (list string) * World :=
  (Ok ["web"], w).

Definition roundTrip (req : Request.t) (w : World) : result string * World :=
  (if bool_decide (Request.Method req = "GET") then
     match assoc (Request.URL req) (served w) with
     | Some body => Ok body
     | None => Err (LibError "no route to host")
     end
   else if refuse_writes w then Err (LibError "connection refused")
   else Ok "", w).

#[export] Instance json_endpoints : JSON Endpoints := {|
  Marshal _ := Err (LibError "not encoded here");
  Decode _ := Ok [ {| Endpoint.ID := 3; Endpoint.Name := "web" |} ];
|}.

#[export] Instance json_stacks : JSON StacksResponse := {|
  Marshal _ := Err (LibError "not encoded here");
  Decode _ := Ok [];
|}.

#[export] Instance json_create : JSON CreateStackRequest.t := {|
  Marshal r :=
    Ok (CreateStackRequest.Name r +:+ ":" +:+ CreateStackRequest.StackFileContent r);
  Decode body :=
    Ok {| CreateStackRequest.Name := "";
          CreateStackRequest.StackFileContent := body |};
|}.

#[export] Instance json_update : JSON BodyComposeUpdate.t := {|
  Marshal b :=
    Ok (BodyComposeUpdate.StackFileContent b +:+ ":" +:+
        (if BodyComposeUpdate.PullImage b then "true" else "false"));
  Decode _ := Err (LibError "not decoded here");
|}.

#[export] Instance platform : Platform World := {|
  os_ReadFile := readFile;
  os_ReadDir := readDir;
  client_Do := roundTrip;
  url_Parse _ := None;
|}.

(** One node [web] that the server knows as endpoint 3, one stack [app]. *)

Definition web : Endpoint.t := {| Endpoint.ID := 3; Endpoint.Name := "web" |}.

Definition ers : gmap string Endpoint.t := {[ "web" := web ]}.

Definition stack9 : Stack.t :=
  {| Stack.ID := 9; Stack.Name := "app"; Stack.Status := 1; Stack.EndpointId := 3 |}.

(** The inventory when the server already has [app] on [web]. *)
Definition known : gmap string Stack.t := {[ "3-app" := stack9 ]}.

Definition config : Config.t :=
  {| Config.PortainerAddress := "http://portainer.example.com";
     Config.APIKey := "secret";
     Config.StackFilesDir := "/stacks/";
     Config.WatchStackdsDir := true |}.

Definition compose : string := "services: {}".

(** The command line that gives [config]. *)
Definition flags : Flags.t :=
  {| Flags.portainer_address := Some "http://portainer.example.com";
     Flags.api_key := Some "secret";
     Flags.stack_files_dir := Some "/stacks";
     Flags.watch_stacks_dir := Some true |}.

(** The compose file sits where [main.go] looks for it. *)
Definition world (remote : string) (refuse : bool) : World :=
  {| disk := [("./stacks/web/app/docker-compose.yml", compose)];
     served := [("http://portainer.b.brain/api/stacks/9/file", remote);
                ("http://portainer.example.com/api/endpoints", "[]");
                ("http://portainer.example.com/api/stacks", "[]")];
     refuse_writes := refuse |}.

End Demo.

(** ** Vocabulary of the statements *)

(** Whether the byte [c] occurs in [s]. *)
Fixpoint hasByte (c : ascii) (s : string) : bool :=
  match s with
  | "" => false
  | String x rest => bool_decide (x = c) || hasByte c rest
  end.

(** The HTTP requests of a trace, oldest first. *)
Fixpoint requests (t : list Event) : list Request.t :=
  match t with
  | [] => []
  | Do req :: t' => req :: requests t'
  | _ :: t' => requests t'
  end.

(** The requests of a trace sent with the given method. *)
Definition sentWith (method : string) (t : list Event) : list Request.t :=
  filter (λ req, Request.Method req = method) (requests t).

(** The files read in a trace, oldest first. *)
Fixpoint filesRead (t : list Event) : list string :=
  match t with
  | [] => []
  | ReadFile path :: t' => path :: filesRead t'
  | _ :: t' => filesRead t'
  end.

(** The parts of what a computation hands back. *)
Definition valueOf {A W : Type} (r : A * W * list Event) : A := r.1.1.
Definition worldOf {A W : Type} (r : A * W * list Event) : W := r.1.2.
Definition traceOf {A W : Type} (r : A * W * list Event) : list Event := r.2.

(** The key under which [manageStack] looks a stack up. *)
Definition keyOf (endpoint : Endpoint.t) (stack : string) : string :=
  fmt.Sprintf "%d-%s" [Int (Endpoint.ID endpoint); Str stack].

(** The three requests of the reconciler as [doRequest] sends them, the
    [X-API-Key] header added. *)
Definition getFile (config : Config.t) (id : Z) : Request.t :=
  {| Request.Method := "GET";
     Request.URL := "http://portainer.b.brain/api/stacks/" +:+ pretty id +:+ "/file";
     Request.Header := [("X-API-Key", Config.APIKey config)];
     Request.Body := None |}.

Definition putStack (config : Config.t) (id eid : Z) (body : string) : Request.t :=
  {| Request.Method := "PUT";
     Request.URL := "http://portainer.b.brain/api/stacks/" +:+ pretty id
                    +:+ "?endpointId=" +:+ pretty eid;
     Request.Header := [("X-API-Key", Config.APIKey config)];
     Request.Body := Some body |}.

Definition postStack (config : Config.t) (eid : Z) (body : string) : Request.t :=
  {| Request.Method := "POST";
     Request.URL := "http://portainer.b.brain/api/stacks?type=2&method=string&endpointId="
                    +:+ pretty eid;
     Request.Header := [("X-API-Key", Config.APIKey config)];
     Request.Body := Some body |}.

(** Where [updateStack] and [createStack] look for the compose file. *)
Definition composePath (node stack : string) : string :=
  "./stacks/" +:+ node +:+ "/" +:+ stack +:+ "/docker-compose.yml".

(** Decimal digits. *)
Definition isDigit (c : ascii) : bool :=
  (48 <=? N_of_ascii c)%N && (N_of_ascii c <=? 57)%N.

Fixpoint allDigits (s : string) : bool :=
  match s with
  | "" => true
  | String c rest => isDigit c && allDigits rest
  end.

(** How often the byte [c] occurs in [s]. *)
Fixpoint countByte (c : ascii) (s : string) : nat :=
  match s with
  | "" => 0%nat
  | String x rest => ((if bool_decide (x = c) then 1 else 0) + countByte c rest)%nat
  end.

(** The error lines of a trace, oldest first: the format and the error of
    each [log.Printf] whose operand is an error. *)
Fixpoint errorLines (t : list Event) : list (string * error) :=
  match t with
  | [] => []
  | PrintfE format _ err :: t' => (format, err) :: errorLines t'
  | _ :: t' => errorLines t'
  end.

(** The two inventory requests of [Run] as [doRequest] sends them. *)
Definition getEndpoints (config : Config.t) : Request.t :=
  {| Request.Method := "GET";
     Request.URL := EndpointsURL config;
     Request.Header := [("X-API-Key", Config.APIKey config)];
     Request.Body := None |}.

Definition getStacks (config : Config.t) : Request.t :=
  {| Request.Method := "GET";
     Request.URL := StacksURL config;
     Request.Header := [("X-API-Key", Config.APIKey config)];
     Request.Body := None |}.

(** * Proofs *)

(** ** A few evaluations *)

Example Sprintf_key_3_app : fmt.Sprintf "%d-%s" [Int 3; Str "app"] = "3-app".
Proof. reflexivity. Qed.

Example Sprintf_key_negative : fmt.Sprintf "%d-%s" [Int (-12); Str "a-b"] = "-12-a-b".
Proof. reflexivity. Qed.

Example Split_absolute :
  strings.Split "/srv/stacks/web/app/docker-compose.yml" "/"
  = [""; "srv"; "stacks"; "web"; "app"; "docker-compose.yml"].
Proof. reflexivity. Qed.

Example Split_of_empty : strings.Split "" "/" = [""].
Proof. reflexivity. Qed.

Example Split_trailing_separator : strings.Split "a/b/" "/" = ["a"; "b"; ""].
Proof. reflexivity. Qed.

Example Compare_prefix : strings.Compare "services: {}" "services: {} " = -1.
Proof. reflexivity. Qed.

Example HasSuffix_default_root : strings.HasSuffix "./stacks/" "/" = true.
Proof. reflexivity. Qed.

Example NewConfigFromFlags_adds_separator :
  Config.StackFilesDir
    (NewConfigFromFlags
       {| Flags.portainer_address := None; Flags.api_key := None;
          Flags.stack_files_dir := Some "/stacks"; Flags.watch_stacks_dir := None |})
  = "/stacks/".
Proof. reflexivity. Qed.

Example EndpointsURL_of_demo :
  EndpointsURL Demo.config = "http://portainer.example.com/api/endpoints".
Proof. reflexivity. Qed.

(** ** Strings *)

(** [String.append] does not unfold under [simpl]; its two equations. *)
Lemma append_nil_l (b : string) : "" +:+ b = b.
Proof. reflexivity. Qed.

Lemma append_cons (c : ascii) (a b : string) :
  String c a +:+ b = String c (a +:+ b).
Proof. reflexivity. Qed.

Lemma append_nil_r (s : string) : s +:+ "" = s.
Proof.
  induction s as [|c s IH]; [done|].
  by rewrite append_cons, IH.
Qed.

Lemma append_assoc (a b c : string) : (a +:+ b) +:+ c = a +:+ b +:+ c.
Proof.
  induction a as [|x a IH]; [done|].
  by rewrite !append_cons, IH.
Qed.

Lemma append_length (a b : string) :
  String.length (a +:+ b) = (String.length a + String.length b)%nat.
Proof.
  induction a as [|x a IH]; [done|].
  rewrite append_cons; simpl. by rewrite IH.
Qed.

(** A common tail can be cancelled. *)
Lemma append_inv_tail (a b t : string) : a +:+ t = b +:+ t → a = b.
Proof.
  revert b; induction a as [|x a IH]; intros [|y b] H;
    rewrite ?append_cons, ?append_nil_l in H.
  - done.
  - apply (f_equal String.length) in H; simpl in H.
    rewrite append_length in H; lia.
  - apply (f_equal String.length) in H; simpl in H.
    rewrite append_length in H; lia.
  - injection H as -> H. f_equal. by apply IH.
Qed.

Lemma N_of_ascii_inj (x y : ascii) : N_of_ascii x = N_of_ascii y → x = y.
Proof.
  intros H. rewrite <-(ascii_N_embedding x), <-(ascii_N_embedding y).
  by rewrite H.
Qed.

Lemma Compare_refl (a : string) : strings.Compare a a = 0.
Proof.
  induction a as [|x a IH]; simpl; [done|].
  by rewrite N.ltb_irrefl.
Qed.

(** [strings.Compare] answers [0] exactly on equal byte sequences. *)
Lemma Compare_eq_0 (a b : string) : strings.Compare a b = 0 ↔ a = b.
Proof.
  split; [|intros ->; apply Compare_refl].
  revert b; induction a as [|x a IH]; intros [|y b]; simpl; try done.
  destruct (N.ltb_spec (N_of_ascii x) (N_of_ascii y)); [done|].
  destruct (N.ltb_spec (N_of_ascii y) (N_of_ascii x)); [done|].
  intros Hrest. f_equal; [apply N_of_ascii_inj; lia | by apply IH].
Qed.

(** ** The formats of [main.go], evaluated *)

Lemma Sprintf_d_s (n : Z) (s : string) :
  fmt.Sprintf "%d-%s" [Int n; Str s] = pretty n +:+ "-" +:+ s.
Proof.
  transitivity (pretty n +:+ String "-" (s +:+ "")); [reflexivity|].
  by rewrite append_nil_r.
Qed.

Lemma Sprintf_compose_path (node stack : string) :
  fmt.Sprintf "./stacks/%s/%s/docker-compose.yml" [Str node; Str stack]
  = "./stacks/" +:+ node +:+ "/" +:+ stack +:+ "/docker-compose.yml".
Proof. reflexivity. Qed.

Lemma Sprintf_file_url (id : Z) :
  fmt.Sprintf "http://portainer.b.brain/api/stacks/%d/file" [Int id]
  = "http://portainer.b.brain/api/stacks/" +:+ pretty id +:+ "/file".
Proof. reflexivity. Qed.

Lemma Sprintf_update_url (id eid : Z) :
  fmt.Sprintf "http://portainer.b.brain/api/stacks/%d?endpointId=%d" [Int id; Int eid]
  = "http://portainer.b.brain/api/stacks/" +:+ pretty id +:+ "?endpointId=" +:+ pretty eid.
Proof.
  transitivity ("http://portainer.b.brain/api/stacks/" +:+ pretty id
                +:+ "?endpointId=" +:+ pretty eid +:+ ""); [reflexivity|].
  by rewrite append_nil_r.
Qed.

Lemma Sprintf_create_url (eid : Z) :
  fmt.Sprintf "http://portainer.b.brain/api/stacks?type=%d&method=%s&endpointId=%d"
    [Int 2; Str "string"; Int eid]
  = "http://portainer.b.brain/api/stacks?type=2&method=string&endpointId=" +:+ pretty eid.
Proof.
  transitivity ("http://portainer.b.brain/api/stacks?type=2&method=string&endpointId="
                +:+ pretty eid +:+ ""); [reflexivity|].
  by rewrite append_nil_r.
Qed.

Lemma Sprintf_api (base what : string) :
  fmt.Sprintf "%s/api/%s" [Str base; Str what] = base +:+ "/api/" +:+ what.
Proof.
  transitivity (base +:+ "/api/" +:+ what +:+ ""); [reflexivity|].
  by rewrite append_nil_r.
Qed.

(** The decimal rendering of integers is injective, and so is the key in
    the endpoint id. *)
Lemma key_inj (n1 n2 : Z) (s : string) :
  fmt.Sprintf "%d-%s" [Int n1; Str s] = fmt.Sprintf "%d-%s" [Int n2; Str s] →
  n1 = n2.
Proof.
  rewrite !Sprintf_d_s, <-!append_assoc. intros H.
  apply append_inv_tail, append_inv_tail in H.
  by apply (inj pretty) in H.
Qed.

(** ** Splitting paths *)

Lemma Split_nonempty (s : string) (sep : ascii) : strings.Split s sep ≠ [].
Proof.
  destruct s as [|c s]; simpl; [done|].
  case_bool_decide; [done|]. by destruct (strings.Split s sep).
Qed.

Lemma Split_no_sep (s : string) (sep : ascii) :
  hasByte sep s = false → strings.Split s sep = [s].
Proof.
  induction s as [|c s IH]; simpl; [done|].
  intros [Hc Hs]%orb_false_elim.
  apply bool_decide_eq_false in Hc.
  rewrite bool_decide_false by done. by rewrite IH.
Qed.

(** The segments on both sides of one separator, put side by side. *)
Lemma Split_app (a b : string) (sep : ascii) :
  strings.Split (a +:+ String sep b) sep
  = strings.Split a sep ++ strings.Split b sep.
Proof.
  induction a as [|c a IH].
  - rewrite append_nil_l; simpl. by rewrite bool_decide_true.
  - rewrite append_cons; simpl. rewrite IH.
    case_bool_decide; [done|].
    pose proof (Split_nonempty a sep).
    by destruct (strings.Split a sep).
Qed.

(** A path that ends in [/node/stack/file]. *)
Lemma Split_trailing_three (dir node stack file : string) :
  hasByte "/" node = false → hasByte "/" stack = false →
  hasByte "/" file = false →
  strings.Split (dir +:+ "/" +:+ node +:+ "/" +:+ stack +:+ "/" +:+ file) "/"
  = strings.Split dir "/" ++ [node; stack; file].
Proof.
  intros Hn Hs Hf.
  rewrite !(append_cons "/" ""), !append_nil_l.
  rewrite (Split_app dir), (Split_app node), (Split_app stack).
  by rewrite (Split_no_sep node), (Split_no_sep stack), (Split_no_sep file).
Qed.

Lemma drop_all_but_three {A} (before : list A) (x y z : A) :
  drop (length (before ++ [x; y; z]) - 3) (before ++ [x; y; z]) = [x; y; z].
Proof.
  rewrite length_app; simpl.
  replace (length before + 3 - 3)%nat with (length before) by lia.
  by rewrite drop_app_length.
Qed.

Lemma last_three {A} (l : list A) :
  (3 ≤ length l)%nat → ∃ before x y z, l = before ++ [x; y; z].
Proof.
  intros Hlen. exists (take (length l - 3) l).
  pose proof (take_drop (length l - 3) l) as Htd.
  assert (length (drop (length l - 3) l) = 3%nat) as Hd
    by (rewrite length_drop; lia).
  destruct (drop (length l - 3) l) as [|x [|y [|z [|? ?]]]]; try done.
  by exists x, y, z.
Qed.

(** ** Keys of the inventory *)

(** Every stack of the remote list has an entry under its key. *)
Lemma stacksById_lookup (stacks : list Stack.t) (m : gmap string Stack.t) (k : string) :
  (is_Some (m !! k) ∨ ∃ s, s ∈ stacks ∧ idFromStack s = k) →
  is_Some (foldl (λ m s, <[idFromStack s := s]> m) m stacks !! k).
Proof.
  revert m; induction stacks as [|s0 stacks IH]; intros m; simpl.
  - intros [?|(s & Hs & _)]; [done|]. by apply elem_of_nil in Hs.
  - intros [Hm|(s & Hs & Hk)]; apply IH.
    + left. destruct (decide (idFromStack s0 = k)) as [->|Hne].
      * rewrite lookup_insert_eq; eauto.
      * by rewrite lookup_insert_ne.
    + apply elem_of_cons in Hs as [->|Hs].
      * left. rewrite Hk, lookup_insert_eq; eauto.
      * right; eauto.
Qed.

(** C6. The composite key is the decimal rendering of the target id, a
    hyphen and the stack name; for one stack name, distinct target ids give
    distinct keys, so two such stacks of the remote list each have their own
    entry in the inventory built from it; and the key [manageStack] computes
    from an endpoint and a stack name is the key the inventory was built
    with, so a stack of the list is found under it. *)
Theorem composite_key_unique_and_shared :
  (∀ s : Stack.t,
     idFromStack s = pretty (Stack.EndpointId s) +:+ "-" +:+ Stack.Name s)
  ∧ (∀ (id : Z) (stack : string),
       fmt.Sprintf "%d-%s" [Int id; Str stack] = pretty id +:+ "-" +:+ stack)
  ∧ (∀ (id1 id2 : Z) (stack : string),
       id1 ≠ id2 →
       fmt.Sprintf "%d-%s" [Int id1; Str stack]
       ≠ fmt.Sprintf "%d-%s" [Int id2; Str stack])
  ∧ (∀ s1 s2 : Stack.t,
       Stack.Name s1 = Stack.Name s2 →
       Stack.EndpointId s1 ≠ Stack.EndpointId s2 →
       idFromStack s1 ≠ idFromStack s2)
  ∧ (∀ (v1 : Endpoint.t) (stack : string) (s : Stack.t),
       Stack.EndpointId s = Endpoint.ID v1 → Stack.Name s = stack →
       fmt.Sprintf "%d-%s" [Int (Endpoint.ID v1); Str stack] = idFromStack s)
  ∧ (∀ (stacks : list Stack.t) (v1 : Endpoint.t) (s : Stack.t),
       s ∈ stacks → Stack.EndpointId s = Endpoint.ID v1 →
       is_Some (foldl (λ m s, <[idFromStack s := s]> m)
                  (∅ : gmap string Stack.t) stacks
                  !! fmt.Sprintf "%d-%s" [Int (Endpoint.ID v1); Str (Stack.Name s)])).
Proof.
  split_and!.
  - intros s. apply Sprintf_d_s.
  - apply Sprintf_d_s.
  - intros id1 id2 stack Hne Heq. by apply key_inj in Heq.
  - intros s1 s2 Hname Hne Heq. unfold idFromStack in Heq.
    rewrite Hname in Heq. by apply key_inj in Heq.
  - intros v1 stack s <- <-. reflexivity.
  - intros stacks v1 s Hs <-. apply stacksById_lookup. right; eauto.
Qed.

(** ** The reconciler *)

Section Reconciler.
Context {World : Type} `{!Platform World}.
Implicit Types (config : Config.t) (node stack : string) (w : World).
Implicit Types (ers : gmap string Endpoint.t) (sMap : gmap string Stack.t).

#[local] Arguments fmt.Sprintf : simpl never.

(** The inventory a call of [manageStack] leaves, whatever the world
    answers. *)
Lemma manageStack_inventory config node stack ers sMap w :
  valueOf (manageStack config node stack ers sMap w) =
    match ers !! node with
    | Some v1 =>
        match sMap !! keyOf v1 stack with
        | Some _ => sMap
        | None => <[keyOf v1 stack := Stack.zero]> sMap
        end
    | None => sMap
    end.
Proof.
  unfold manageStack, keyOf, valueOf, bind, emit, ret.
  destruct (ers !! node) as [v1|]; [|done].
  destruct (sMap !! _) as [s|].
  - by repeat (case_match; simplify_eq/=).
  - by repeat (case_match; simplify_eq/=).
Qed.

Lemma manageStack_preserves config node stack ers sMap w (k : string) (v : Stack.t) :
  sMap !! k = Some v →
  valueOf (manageStack config node stack ers sMap w) !! k = Some v.
Proof.
  intros Hk. rewrite manageStack_inventory.
  destruct (ers !! node) as [v1|]; [|done].
  destruct (sMap !! keyOf v1 stack) as [s|] eqn:Hs; [done|].
  rewrite lookup_insert_ne; [done|]. congruence.
Qed.

Lemma Run_watchEvent_inventory config path ers sMap w :
  valueOf (Run_watchEvent config path ers sMap w) = sMap
  ∨ ∃ node stack w',
      valueOf (Run_watchEvent config path ers sMap w)
      = valueOf (manageStack config node stack ers sMap w').
Proof.
  unfold Run_watchEvent, bind, emit, ret, valueOf.
  case_bool_decide; [by left|]. right.
  set (segs := drop _ _).
  exists (segs !!! 0%nat), (segs !!! 1%nat), w.
  by destruct (manageStack _ _ _ _ _ _) as [[sMap' w'] t'].
Qed.

Lemma Run_watchEvent_preserves config path ers sMap w (k : string) (v : Stack.t) :
  sMap !! k = Some v →
  valueOf (Run_watchEvent config path ers sMap w) !! k = Some v.
Proof.
  intros Hk.
  destruct (Run_watchEvent_inventory config path ers sMap w)
    as [->|(node & stack & w' & ->)]; [done|].
  by apply manageStack_preserves.
Qed.

Lemma Run_watch_preserves config events ers sMap w (k : string) (v : Stack.t) :
  sMap !! k = Some v →
  valueOf (Run_watch config events ers sMap w) !! k = Some v.
Proof.
  revert sMap w; induction events as [|path events IH]; intros sMap w Hk.
  - done.
  - simpl. unfold bind.
    pose proof (Run_watchEvent_preserves config path ers sMap w k v Hk) as H1.
    destruct (Run_watchEvent config path ers sMap w) as [[sMap1 w1] t1].
    specialize (IH sMap1 w1 H1).
    destruct (Run_watch config events ers sMap1 w1) as [[sMap2 w2] t2].
    done.
Qed.

(** C5. A node without an entry in the targets-by-name table: the call
    sends no request, reads no file, logs nothing, and leaves the inventory
    and the world as they were. *)
Theorem unknown_node_is_skipped config node stack ers sMap w :
  ers !! node = None →
  manageStack config node stack ers sMap w = (sMap, w, []).
Proof. intros Hnode. unfold manageStack. by rewrite Hnode. Qed.

(** C10. A reconciliation keeps every entry of the inventory as it is: on
    the update path the inventory is left untouched, on the create path the
    only write is an insertion under the key that was just found absent,
    and so over the whole watch loop an entry, once present, stays
    unchanged. *)
Theorem inventory_only_grows config ers :
  (∀ node stack sMap w (k : string) (v : Stack.t),
     sMap !! k = Some v →
     valueOf (manageStack config node stack ers sMap w) !! k = Some v)
  ∧ (∀ node stack v1 sMap w,
       ers !! node = Some v1 → is_Some (sMap !! keyOf v1 stack) →
       valueOf (manageStack config node stack ers sMap w) = sMap)
  ∧ (∀ node stack v1 sMap w,
       ers !! node = Some v1 → sMap !! keyOf v1 stack = None →
       valueOf (manageStack config node stack ers sMap w)
       = <[keyOf v1 stack := Stack.zero]> sMap)
  ∧ (∀ node stack sMap w,
       ers !! node = None →
       valueOf (manageStack config node stack ers sMap w) = sMap)
  ∧ (∀ events sMap w (k : string) (v : Stack.t),
       sMap !! k = Some v →
       valueOf (Run_watch config events ers sMap w) !! k = Some v).
Proof.
  split_and!.
  - intros. by apply manageStack_preserves.
  - intros node stack v1 sMap w Hn [s Hs].
    by rewrite manageStack_inventory, Hn, Hs.
  - intros node stack v1 sMap w Hn Hs.
    by rewrite manageStack_inventory, Hn, Hs.
  - intros node stack sMap w Hn.
    by rewrite manageStack_inventory, Hn.
  - intros. by apply Run_watch_preserves.
Qed.


(** *** The two paths of [manageStack] *)

Lemma manageStack_update_path config node stack ers sMap w v1 s :
  ers !! node = Some v1 → sMap !! keyOf v1 stack = Some s →
  manageStack config node stack ers sMap w =
    let '(err, w', t) := updateStack config node stack v1 sMap w in
    (sMap, w',
     Printf "update stack %s on node %s" [Str stack; Str node] :: t ++
     match err with
     | Some e => [PrintfE "failed to update stack: %s" [] e]
     | None => []
     end).
Proof.
  intros Hn Hs. unfold manageStack, keyOf in *. rewrite Hn. cbv zeta.
  rewrite Hs.
  unfold bind, emit, ret, logError; simpl.
  destruct (updateStack _ _ _ _ _ _) as [[[e|] w'] t]; simpl;
    by rewrite ?app_nil_r.
Qed.

Lemma manageStack_create_path config node stack ers sMap w v1 :
  ers !! node = Some v1 → sMap !! keyOf v1 stack = None →
  manageStack config node stack ers sMap w =
    let '(err, w', t) := createStack config node stack v1 w in
    (<[keyOf v1 stack := Stack.zero]> sMap, w',
     Printf "create stack %s on node %s" [Str stack; Str node] :: t ++
     match err with
     | Some e => [PrintfE "failed to create stack: %s" [] e]
     | None => []
     end).
Proof.
  intros Hn Hs. unfold manageStack, keyOf in *. rewrite Hn. cbv zeta.
  rewrite Hs.
  unfold bind, emit, ret, logError; simpl.
  destruct (createStack _ _ _ _ _) as [[[e|] w'] t]; simpl;
    by rewrite ?app_nil_r.
Qed.

Lemma requests_app (t1 t2 : list Event) :
  requests (t1 ++ t2) = requests t1 ++ requests t2.
Proof.
  induction t1 as [|[] t1 IH]; simpl; by rewrite ?IH.
Qed.

Lemma filesRead_app (t1 t2 : list Event) :
  filesRead (t1 ++ t2) = filesRead t1 ++ filesRead t2.
Proof.
  induction t1 as [|[] t1 IH]; simpl; by rewrite ?IH.
Qed.

Lemma NewRequest_eq (method url : string) (body : option string) :
  NewRequest method url body =
    match url_Parse url with
    | Some err => Err err
    | None => Ok {| Request.Method := method; Request.URL := url;
                    Request.Header := []; Request.Body := body |}
    end.
Proof. reflexivity. Qed.

Lemma NewRequest_Ok (method url : string) (body : option string) (cr : Request.t) :
  NewRequest method url body = Ok cr →
  cr = {| Request.Method := method; Request.URL := url;
          Request.Header := []; Request.Body := body |}.
Proof. unfold NewRequest. destruct (url_Parse url); naive_solver. Qed.

(** *** The update path *)

(** Every request [updateStack] sends is the [GET] of the file of the
    inventory's entry or the [PUT] on that same entry. *)
Lemma updateStack_requests config node stack endpoint sMap w :
  requests (traceOf (updateStack config node stack endpoint sMap w)) = []
  ∨ ∃ s, sMap !! keyOf endpoint stack = Some s ∧
      (requests (traceOf (updateStack config node stack endpoint sMap w))
       = [getFile config (Stack.ID s)]
       ∨ ∃ bodys,
           Marshal {| BodyComposeUpdate.StackFileContent :=
                        match (os_ReadFile (composePath node stack) w).1 with
                        | Ok sf => sf
                        | Err _ => ""
                        end;
                      BodyComposeUpdate.PullImage := true |} = Ok bodys ∧
           requests (traceOf (updateStack config node stack endpoint sMap w))
           = [getFile config (Stack.ID s);
              putStack config (Stack.ID s) (Endpoint.ID endpoint) bodys]).
Proof.
  unfold updateStack, doRequest, traceOf, ReadFile_, Do_, emit, ret, bind.
  rewrite Sprintf_compose_path. fold (composePath node stack).
  fold (keyOf endpoint stack).
  destruct (os_ReadFile (composePath node stack) w) as [[sf|e] w1]; simpl;
    [|by left].
  destruct (sMap !! keyOf endpoint stack) as [s|]; simpl; [|by left].
  destruct (NewRequest "GET" _ None) as [cr|e] eqn:Hcr; simpl; [|by left].
  apply NewRequest_Ok in Hcr as ->. rewrite Sprintf_file_url.
  unfold Header_Add; simpl. fold (getFile config (Stack.ID s)).
  right. exists s. split; [done|].
  destruct (client_Do (getFile config (Stack.ID s)) w1) as [[body|e] w2];
    simpl; [|by left].
  destruct (Decode body) as [sfc|e]; simpl; [|by left].
  case_bool_decide; simpl; [by left|].
  destruct (Marshal _) as [bodys|e] eqn:Hm; simpl; [|by left].
  destruct (NewRequest "PUT" _ _) as [cr|e] eqn:Hcr; simpl; [|by left].
  apply NewRequest_Ok in Hcr as ->. rewrite Sprintf_update_url.
  unfold Header_Add; simpl.
  fold (putStack config (Stack.ID s) (Endpoint.ID endpoint) bodys).
  right. exists bodys. split; [done|].
  by destruct (client_Do _ w2) as [[?|?] ?].
Qed.

(** C1. On the update path, once the local file is read and the remote
    content fetched, the two are compared byte for byte.  Equal: the call
    returns no error, sends nothing after the [GET] and leaves the world as
    the [GET] left it.  Different, be it in one byte: exactly one [PUT] is
    sent, after the [GET], and its body is the encoding of the local content
    with [PullImage] set. *)
Theorem update_compares_content config node stack endpoint sMap w0
    (s : Stack.t) (sf : string) (w1 : World) (body : string) (w2 : World)
    (sfc : CreateStackRequest.t) :
  sMap !! keyOf endpoint stack = Some s →
  os_ReadFile (composePath node stack) w0 = (Ok sf, w1) →
  url_Parse (Request.URL (getFile config (Stack.ID s))) = None →
  client_Do (getFile config (Stack.ID s)) w1 = (Ok body, w2) →
  Decode body = Ok sfc →
  let remote := CreateStackRequest.StackFileContent sfc in
  let run := updateStack config node stack endpoint sMap w0 in
  (remote = sf →
     run = (None, w2,
            [ReadFile (composePath node stack);
             Do (getFile config (Stack.ID s));
             Printf "Skip identical: %s" [Str stack]])
     ∧ sentWith "PUT" (traceOf run) = [])
  ∧ (remote ≠ sf →
     ∀ bodys : string,
       Marshal {| BodyComposeUpdate.StackFileContent := sf;
                  BodyComposeUpdate.PullImage := true |} = Ok bodys →
       let put := putStack config (Stack.ID s) (Endpoint.ID endpoint) bodys in
       url_Parse (Request.URL put) = None →
       traceOf run = [ReadFile (composePath node stack);
                      Do (getFile config (Stack.ID s)); Do put]
       ∧ sentWith "PUT" (traceOf run) = [put]
       ∧ worldOf run = (client_Do put w2).2
       ∧ valueOf run =
           match (client_Do put w2).1 with
           | Ok _ => None
           | Err err =>
               Some (ErrorfE "failed to create stack: %w" []
                       (ErrorfE "failed to make POST request: %w" [] err))
           end).
Proof.
  intros Hs Hread Hurl Hget Hdec remote run. subst remote run.
  simpl in Hurl.
  unfold updateStack, doRequest, ReadFile_, Do_, emit, ret, bind, NewRequest.
  rewrite Sprintf_compose_path. fold (composePath node stack).
  fold (keyOf endpoint stack). rewrite Hread, Hs; simpl.
  rewrite Sprintf_file_url, Hurl.
  unfold Header_Add; simpl. fold (getFile config (Stack.ID s)).
  rewrite Hget; simpl. rewrite Hdec; simpl.
  split.
  - intros ->. rewrite bool_decide_true by apply Compare_refl. done.
  - intros Hne bodys Hm Hput. simpl in Hput.
    rewrite bool_decide_false by (by rewrite Compare_eq_0).
    rewrite Hm, Sprintf_update_url, Hput; simpl.
    fold (putStack config (Stack.ID s) (Endpoint.ID endpoint) bodys).
    by destruct (client_Do _ w2) as [[?|?] ?].
Qed.

(** *** The create path *)

Lemma createStack_requests config node stack endpoint w :
  requests (traceOf (createStack config node stack endpoint w)) = []
  ∨ ∃ sf s,
      (os_ReadFile (composePath node stack) w).1 = Ok sf ∧
      Marshal {| CreateStackRequest.Name := stack;
                 CreateStackRequest.StackFileContent := sf |} = Ok s ∧
      requests (traceOf (createStack config node stack endpoint w))
      = [postStack config (Endpoint.ID endpoint) s].
Proof.
  unfold createStack, doRequest, traceOf, ReadFile_, Do_, emit, ret, bind.
  rewrite Sprintf_compose_path. fold (composePath node stack).
  destruct (os_ReadFile (composePath node stack) w) as [[sf|e] w1]; simpl;
    [|by left].
  destruct (Marshal _) as [s|e] eqn:Hm; simpl; [|by left].
  destruct (NewRequest "POST" _ _) as [cr|e] eqn:Hcr; simpl; [|by left].
  apply NewRequest_Ok in Hcr as ->. rewrite Sprintf_create_url.
  unfold Header_Add; simpl. fold (postStack config (Endpoint.ID endpoint) s).
  right. exists sf, s. split_and!; [done..|].
  by destruct (client_Do _ w1) as [[?|?] ?].
Qed.

(** Both paths start by reading the compose file at the fixed place. *)
Lemma updateStack_reads config node stack endpoint sMap w :
  filesRead (traceOf (updateStack config node stack endpoint sMap w))
  = [composePath node stack].
Proof.
  unfold updateStack, doRequest, traceOf, ReadFile_, Do_, emit, ret, bind.
  rewrite Sprintf_compose_path. fold (composePath node stack).
  destruct (os_ReadFile (composePath node stack) w) as [[sf|e] w1]; simpl;
    [|done].
  by repeat (case_match; simplify_eq/=).
Qed.

Lemma createStack_reads config node stack endpoint w :
  filesRead (traceOf (createStack config node stack endpoint w))
  = [composePath node stack].
Proof.
  unfold createStack, doRequest, traceOf, ReadFile_, Do_, emit, ret, bind.
  rewrite Sprintf_compose_path. fold (composePath node stack).
  destruct (os_ReadFile (composePath node stack) w) as [[sf|e] w1]; simpl;
    [|done].
  by repeat (case_match; simplify_eq/=).
Qed.

(** Whatever the configuration, [manageStack] reads no file but the compose
    file under [./stacks/]. *)
Lemma manageStack_reads config node stack ers sMap w (path : string) :
  path ∈ filesRead (traceOf (manageStack config node stack ers sMap w)) →
  path = composePath node stack.
Proof.
  unfold manageStack.
  destruct (ers !! node) as [v1|] eqn:Hn; [|by intros ?%elem_of_nil].
  cbv zeta. fold (keyOf v1 stack).
  destruct (sMap !! keyOf v1 stack) as [s|] eqn:Hs;
    unfold bind, emit, ret, logError; simpl.
  - pose proof (updateStack_reads config node stack v1 sMap w) as Hr.
    destruct (updateStack _ _ _ _ _ _) as [[err w'] t].
    unfold traceOf in *; simpl in *.
    destruct err; simpl; rewrite filesRead_app, Hr; simpl;
      by intros ->%list_elem_of_singleton.
  - pose proof (createStack_reads config node stack v1 w) as Hr.
    destruct (createStack _ _ _ _ _) as [[err w'] t].
    unfold traceOf in *; simpl in *.
    destruct err; simpl; rewrite filesRead_app, Hr; simpl;
      by intros ->%list_elem_of_singleton.
Qed.

(** The requests of a call of [manageStack] on the update path are those
    of [updateStack]. *)
Lemma manageStack_update_requests config node stack ers sMap w v1 s :
  ers !! node = Some v1 → sMap !! keyOf v1 stack = Some s →
  requests (traceOf (manageStack config node stack ers sMap w))
  = requests (traceOf (updateStack config node stack v1 sMap w)).
Proof.
  intros Hn Hs. rewrite (manageStack_update_path _ _ _ _ _ _ v1 s) by done.
  destruct (updateStack _ _ _ _ _ _) as [[err w'] t]. unfold traceOf; simpl.
  rewrite requests_app. destruct err; simpl; by rewrite app_nil_r.
Qed.

Lemma manageStack_create_requests config node stack ers sMap w v1 :
  ers !! node = Some v1 → sMap !! keyOf v1 stack = None →
  requests (traceOf (manageStack config node stack ers sMap w))
  = requests (traceOf (createStack config node stack v1 w)).
Proof.
  intros Hn Hs. rewrite (manageStack_create_path _ _ _ _ _ _ v1) by done.
  destruct (createStack _ _ _ _ _) as [[err w'] t]. unfold traceOf; simpl.
  rewrite requests_app. destruct err; simpl; by rewrite app_nil_r.
Qed.

(** Whatever the configuration, every request of [manageStack] is one of
    the three requests to [portainer.b.brain]. *)
Lemma manageStack_requests config node stack ers sMap w (req : Request.t) :
  req ∈ requests (traceOf (manageStack config node stack ers sMap w)) →
  ∃ v1, ers !! node = Some v1 ∧
    ((∃ s, sMap !! keyOf v1 stack = Some s ∧
        (req = getFile config (Stack.ID s)
         ∨ ∃ bodys, req = putStack config (Stack.ID s) (Endpoint.ID v1) bodys))
     ∨ (sMap !! keyOf v1 stack = None ∧
        ∃ bodys, req = postStack config (Endpoint.ID v1) bodys)).
Proof.
  destruct (ers !! node) as [v1|] eqn:Hn.
  2: { unfold manageStack. rewrite Hn. by intros ?%elem_of_nil. }
  intros Hin. exists v1. split; [done|].
  destruct (sMap !! keyOf v1 stack) as [s|] eqn:Hs.
  - left. exists s. split; [done|].
    rewrite (manageStack_update_requests _ _ _ _ _ _ v1 s) in Hin by done.
    destruct (updateStack_requests config node stack v1 sMap w)
      as [Hnone|(s' & Hs' & Hsome)].
    { rewrite Hnone in Hin. by apply elem_of_nil in Hin. }
    assert (s' = s) as -> by congruence.
    destruct Hsome as [Hone|(bodys & _ & Htwo)].
    + rewrite Hone in Hin. apply list_elem_of_singleton in Hin. by left.
    + rewrite Htwo in Hin.
      apply elem_of_cons in Hin as [->|Hin]; [by left|].
      apply list_elem_of_singleton in Hin. right; eauto.
  - right. split; [done|].
    rewrite (manageStack_create_requests _ _ _ _ _ _ v1) in Hin by done.
    destruct (createStack_requests config node stack v1 w)
      as [Hnone|(sf & bodys & _ & _ & Hone)].
    { rewrite Hnone in Hin. by apply elem_of_nil in Hin. }
    rewrite Hone in Hin. apply list_elem_of_singleton in Hin. eauto.
Qed.

(** C9. Once the create path has put its placeholder in the inventory,
    the entry stays the zero-value record through any later events of the
    watch loop, and every later reconciliation of the same pair takes the
    update path on it: it sends no [POST], and whatever it sends is the
    [GET] of [/api/stacks/0/file] or the [PUT] on [/api/stacks/0], the id 0
    being the [ID] field of the placeholder. *)
Theorem placeholder_is_updated_under_id_0 config node stack ers sMap w v1 :
  ers !! node = Some v1 → sMap !! keyOf v1 stack = None →
  let sMap1 := valueOf (manageStack config node stack ers sMap w) in
  sMap1 !! keyOf v1 stack = Some Stack.zero
  ∧ Request.URL (getFile config (Stack.ID Stack.zero))
    = "http://portainer.b.brain/api/stacks/0/file"
  ∧ (∀ bodys,
       Request.URL (putStack config (Stack.ID Stack.zero) (Endpoint.ID v1) bodys)
       = "http://portainer.b.brain/api/stacks/0?endpointId=" +:+ pretty (Endpoint.ID v1))
  ∧ ∀ events w1,
      let sMap2 := valueOf (Run_watch config events ers sMap1 w1) in
      sMap2 !! keyOf v1 stack = Some Stack.zero
      ∧ ∀ w2,
          let later := manageStack config node stack ers sMap2 w2 in
          valueOf later = sMap2
          ∧ head (traceOf later)
            = Some (Printf "update stack %s on node %s" [Str stack; Str node])
          ∧ sentWith "POST" (traceOf later) = []
          ∧ ∀ req, req ∈ requests (traceOf later) →
              req = getFile config (Stack.ID Stack.zero)
              ∨ ∃ bodys, req = putStack config (Stack.ID Stack.zero)
                                 (Endpoint.ID v1) bodys.
Proof.
  intros Hn Hs sMap1.
  assert (sMap1 !! keyOf v1 stack = Some Stack.zero) as H1.
  { subst sMap1. rewrite manageStack_inventory, Hn, Hs.
    apply lookup_insert_eq. }
  split_and!; [done..|].
  intros events w1 sMap2.
  assert (sMap2 !! keyOf v1 stack = Some Stack.zero) as H2
    by (by apply Run_watch_preserves).
  split; [done|]. intros w2 later. subst later.
  pose proof (manageStack_update_requests config node stack ers sMap2 w2
                v1 Stack.zero Hn H2) as Hreq.
  pose proof (updateStack_requests config node stack v1 sMap2 w2) as Hshape.
  rewrite <-Hreq in Hshape. unfold sentWith.
  split_and!.
  - by rewrite manageStack_inventory, Hn, H2.
  - rewrite (manageStack_update_path _ _ _ _ _ _ v1 Stack.zero) by done.
    by destruct (updateStack _ _ _ _ _ _) as [[err w'] t].
  - destruct Hshape as [->|(s & Hs2 & [->|(bodys & _ & ->)])]; done.
  - intros req Hin.
    destruct Hshape as [Hnone|(s & Hs2 & Hsome)].
    { rewrite Hnone in Hin. by apply elem_of_nil in Hin. }
    assert (s = Stack.zero) as -> by congruence.
    destruct Hsome as [Hone|(bodys & _ & Htwo)].
    + rewrite Hone in Hin. apply list_elem_of_singleton in Hin. by left.
    + rewrite Htwo in Hin.
      apply elem_of_cons in Hin as [->|Hin]; [by left|].
      apply list_elem_of_singleton in Hin. right; eauto.
Qed.

(** *** The watch loop *)

(** C7. The watch loop splits the path of an event at every [/].  With
    fewer than three segments the event is dropped: one log line, no
    reconciliation, inventory and world untouched.  Otherwise the
    reconciliation runs on the first two of the last three segments; three
    segments or more always end in such a triple, and a path ending in
    [/node/stack/file] yields exactly [node] and [stack]. *)
Theorem watch_event_path_parsing config path ers sMap w :
  ((length (strings.Split path "/") < 3)%nat →
     Run_watchEvent config path ers sMap w
     = (sMap, w, [Printf "skip path: %s" [Str path]]))
  ∧ (∀ before node stack file,
       strings.Split path "/" = before ++ [node; stack; file] →
       Run_watchEvent config path ers sMap w
       = bind (emit (Printf "deploy: %s/%s" [Str node; Str stack]))
           (λ _, manageStack config node stack ers sMap) w)
  ∧ ((3 ≤ length (strings.Split path "/"))%nat →
       ∃ before node stack file,
         strings.Split path "/" = before ++ [node; stack; file])
  ∧ (∀ dir node stack file,
       hasByte "/" node = false → hasByte "/" stack = false →
       hasByte "/" file = false →
       path = dir +:+ "/" +:+ node +:+ "/" +:+ stack +:+ "/" +:+ file →
       Run_watchEvent config path ers sMap w
       = bind (emit (Printf "deploy: %s/%s" [Str node; Str stack]))
           (λ _, manageStack config node stack ers sMap) w)
  ∧ (∀ node stack file,
       hasByte "/" node = false → hasByte "/" stack = false →
       hasByte "/" file = false →
       path = node +:+ "/" +:+ stack +:+ "/" +:+ file →
       Run_watchEvent config path ers sMap w
       = bind (emit (Printf "deploy: %s/%s" [Str node; Str stack]))
           (λ _, manageStack config node stack ers sMap) w).
Proof.
  assert (∀ before node stack file,
       strings.Split path "/" = before ++ [node; stack; file] →
       Run_watchEvent config path ers sMap w
       = bind (emit (Printf "deploy: %s/%s" [Str node; Str stack]))
           (λ _, manageStack config node stack ers sMap) w) as Htake.
  { intros before node stack file Hsplit. unfold Run_watchEvent.
    rewrite Hsplit, drop_all_but_three.
    rewrite bool_decide_false; [done|].
    rewrite length_app; simpl; lia. }
  split_and!.
  - intros Hlen. unfold Run_watchEvent.
    by rewrite bool_decide_true.
  - done.
  - apply last_three.
  - intros dir node stack file Hn Hs Hf ->.
    apply (Htake (strings.Split dir "/") node stack file).
    by apply Split_trailing_three.
  - intros node stack file Hn Hs Hf ->.
    apply (Htake [] node stack file).
    rewrite !(append_cons "/" ""), !append_nil_l.
    rewrite (Split_app node), (Split_app stack).
    by rewrite (Split_no_sep node), (Split_no_sep stack), (Split_no_sep file).
Qed.

(** *** Startup *)

(** C8. With an empty address or an empty API key [Run] returns an error
    having sent no request and read no directory: the world is untouched
    and the trace is empty.  With both set it goes on to the inventory
    fetches: it builds the [GET] of [{address}/api/endpoints] and, the
    request built, sends it with the key before anything else. *)
Theorem startup_requires_address_and_key (args : Flags.t) w :
  let config := NewConfigFromFlags args in
  (Config.PortainerAddress config = "" →
     Run_startup args w = (Err (Errorf "portainer-address must be set" []), w, []))
  ∧ (Config.PortainerAddress config ≠ "" → Config.APIKey config = "" →
     Run_startup args w = (Err (Errorf "api-key must be set" []), w, []))
  ∧ (Config.PortainerAddress config ≠ "" → Config.APIKey config ≠ "" →
     match url_Parse (Config.PortainerAddress config +:+ "/api/endpoints") with
     | Some err =>
         Run_startup args w
         = (Err (ErrorfE "failed to create new GET request for endpoints: %w" [] err),
            w, [])
     | None =>
         ∃ r w' t,
           Run_startup args w
           = (r, w',
              Do {| Request.Method := "GET";
                    Request.URL := Config.PortainerAddress config +:+ "/api/endpoints";
                    Request.Header := [("X-API-Key", Config.APIKey config)];
                    Request.Body := None |} :: t)
     end).
Proof.
  intros config. unfold Run_startup. fold config.
  split_and!.
  - intros Ha. by rewrite bool_decide_true.
  - intros Ha Hk. by rewrite bool_decide_false, bool_decide_true.
  - intros Ha Hk. rewrite !bool_decide_false by done.
    unfold EndpointsURL. rewrite Sprintf_api.
    change ("/api/" +:+ "endpoints") with "/api/endpoints".
    rewrite (NewRequest_eq "GET" (_ +:+ "/api/endpoints")).
    destruct (url_Parse _) as [err|]; [done|].
    unfold doRequest at 1, Do_, bind, Header_Add; simpl.
    destruct (client_Do _ w) as [[body|e] w1]; simpl; [|by eexists _, _, _].
    repeat (case_match; simplify_eq/=); by eexists _, _, _.
Qed.

End Reconciler.

(** ** Runs on the demonstration platform *)

Section DemoRuns.
Import Demo.

(** C2. A create that fails still leaves the placeholder behind: with an
    empty inventory and a server that refuses the [POST], [createStack]
    returns an error, and after [manageStack] the key ["3-app"], absent
    before, holds the zero-value record. *)
Theorem failed_create_still_inserts_placeholder :
  let w := world "" true in
  (∅ : gmap string Stack.t) !! "3-app" = None
  ∧ valueOf (createStack config "web" "app" web w)
    = Some (ErrorfE "failed to create stack: %w" []
              (ErrorfE "failed to make POST request: %w" []
                 (LibError "connection refused")))
  ∧ valueOf (manageStack config "web" "app" ers ∅ w) !! "3-app"
    = Some Stack.zero.
Proof. vm_compute. done. Qed.

(** C3. The requests of both paths go to the fixed host
    [portainer.b.brain], whatever address is configured: with the address
    [http://portainer.example.com], the create path posts to, and the
    update path gets from and puts to, URLs that do not start with it. *)
Theorem requests_ignore_configured_address :
  Config.PortainerAddress config = "http://portainer.example.com"
  ∧ Request.URL <$> requests (traceOf (manageStack config "web" "app" ers ∅
                                         (world "" false)))
    = ["http://portainer.b.brain/api/stacks?type=2&method=string&endpointId=3"]
  ∧ Request.URL <$> requests (traceOf (manageStack config "web" "app" ers known
                                         (world "other" false)))
    = ["http://portainer.b.brain/api/stacks/9/file";
       "http://portainer.b.brain/api/stacks/9?endpointId=3"]
  ∧ "http://portainer.b.brain/api/stacks/9/file"
    ≠ Config.PortainerAddress config +:+ "/api/stacks/9/file".
Proof. vm_compute. done. Qed.

(** C4. Both paths read the compose file under the literal [./stacks/],
    whatever root directory is configured: with the root [/stacks/], the
    file read is [./stacks/web/app/docker-compose.yml], not
    [/stacks/web/app/docker-compose.yml].  It is read anew by each call. *)
Theorem compose_file_read_ignores_configured_root :
  Config.StackFilesDir config = "/stacks/"
  ∧ filesRead (traceOf (manageStack config "web" "app" ers ∅ (world "" false)))
    = ["./stacks/web/app/docker-compose.yml"]
  ∧ filesRead (traceOf (manageStack config "web" "app" ers known
                          (world "other" false)))
    = ["./stacks/web/app/docker-compose.yml"]
  ∧ "./stacks/web/app/docker-compose.yml"
    ≠ Config.StackFilesDir config +:+ "web" +:+ "/" +:+ "app" +:+ "/"
      +:+ "docker-compose.yml".
Proof. vm_compute. done. Qed.


(** Equal content is skipped; one trailing space more on the server and the
    [PUT] goes out. *)
Lemma update_compares_content_witness :
  updateStack config "web" "app" web known (world compose false)
  = (None, world compose false,
     [ReadFile "./stacks/web/app/docker-compose.yml";
      Do (getFile config 9); Printf "Skip identical: %s" [Str "app"]])
  ∧ sentWith "PUT" (traceOf (updateStack config "web" "app" web known
                               (world "services: {} " false)))
    = [putStack config 9 3 "services: {}:true"].
Proof.
  split.
  - pose proof (update_compares_content config "web" "app" web known
                  (world compose false) stack9 compose (world compose false)
                  compose (world compose false)
                  {| CreateStackRequest.Name := "";
                     CreateStackRequest.StackFileContent := compose |}
                  eq_refl eq_refl eq_refl eq_refl eq_refl) as [Hsame _].
    exact (proj1 (Hsame eq_refl)).
  - pose proof (update_compares_content config "web" "app" web known
                  (world "services: {} " false) stack9 compose
                  (world "services: {} " false) "services: {} "
                  (world "services: {} " false)
                  {| CreateStackRequest.Name := "";
                     CreateStackRequest.StackFileContent := "services: {} " |}
                  eq_refl eq_refl eq_refl eq_refl eq_refl) as [_ Hdiff].
    assert ("services: {} " ≠ compose) as Hne by (vm_compute; discriminate).
    exact (proj1 (proj2 (Hdiff Hne "services: {}:true" eq_refl eq_refl))).
Defined.

(** The demonstration server knows no node [db]. *)
Lemma unknown_node_is_skipped_witness :
  manageStack config "db" "app" ers known (world "" false)
  = (known, world "" false, []).
Proof. apply unknown_node_is_skipped. vm_compute. reflexivity. Defined.

(** [app] on endpoints 3 and 4. *)
Lemma composite_key_witness :
  idFromStack stack9
  ≠ idFromStack {| Stack.ID := 10; Stack.Name := "app"; Stack.Status := 1;
                   Stack.EndpointId := 4 |}
  ∧ fmt.Sprintf "%d-%s" [Int 3; Str "app"] = idFromStack stack9
  ∧ is_Some (foldl (λ m s, <[idFromStack s := s]> m)
               (∅ : gmap string Stack.t) [stack9]
               !! fmt.Sprintf "%d-%s" [Int 3; Str "app"]).
Proof.
  destruct composite_key_unique_and_shared
    as (_ & _ & _ & Hdistinct & Hagree & Hfound).
  split_and!.
  - apply Hdistinct; [reflexivity | vm_compute; discriminate].
  - apply (Hagree web "app" stack9); reflexivity.
  - apply (Hfound [stack9] web stack9); [apply list_elem_of_singleton|];
      reflexivity.
Defined.

(** A path of two segments, and the path of a compose file. *)
Lemma watch_event_path_parsing_witness :
  Run_watchEvent config "/stacks" ers known (world "" false)
  = (known, world "" false, [Printf "skip path: %s" [Str "/stacks"]])
  ∧ Run_watchEvent config "/stacks/web/app/docker-compose.yml" ers known
      (world "" false)
    = bind (emit (Printf "deploy: %s/%s" [Str "web"; Str "app"]))
        (λ _, manageStack config "web" "app" ers known) (world "" false).
Proof.
  split.
  - apply (watch_event_path_parsing config "/stacks" ers known (world "" false)).
    vm_compute. lia.
  - apply (proj1 (proj2 (proj2 (proj2
             (watch_event_path_parsing config
                "/stacks/web/app/docker-compose.yml" ers known
                (world "" false)))))
             "/stacks" "web" "app" "docker-compose.yml");
      reflexivity.
Defined.

(** No address, an empty key, and both given. *)
Lemma startup_requires_address_and_key_witness :
  Run_startup {| Flags.portainer_address := None; Flags.api_key := Some "secret";
                 Flags.stack_files_dir := None; Flags.watch_stacks_dir := None |}
    (world "" false)
  = (Err (Errorf "portainer-address must be set" []), world "" false, [])
  ∧ Run_startup {| Flags.portainer_address := Some "http://portainer.example.com";
                   Flags.api_key := Some "";
                   Flags.stack_files_dir := None; Flags.watch_stacks_dir := None |}
      (world "" false)
    = (Err (Errorf "api-key must be set" []), world "" false, [])
  ∧ ∃ r w' t,
      Run_startup {| Flags.portainer_address := Some "http://portainer.example.com";
                     Flags.api_key := Some "secret";
                     Flags.stack_files_dir := Some "/stacks";
                     Flags.watch_stacks_dir := None |}
        (world "" false)
      = (r, w',
         Do {| Request.Method := "GET";
               Request.URL := "http://portainer.example.com/api/endpoints";
               Request.Header := [("X-API-Key", "secret")];
               Request.Body := None |} :: t).
Proof.
  split_and!.
  - apply (startup_requires_address_and_key
             {| Flags.portainer_address := None; Flags.api_key := Some "secret";
                Flags.stack_files_dir := None; Flags.watch_stacks_dir := None |}).
    reflexivity.
  - apply (startup_requires_address_and_key
             {| Flags.portainer_address := Some "http://portainer.example.com";
                Flags.api_key := Some "";
                Flags.stack_files_dir := None; Flags.watch_stacks_dir := None |});
      [vm_compute; discriminate | reflexivity].
  - refine (proj2 (proj2 (startup_requires_address_and_key
             {| Flags.portainer_address := Some "http://portainer.example.com";
                Flags.api_key := Some "secret";
                Flags.stack_files_dir := Some "/stacks";
                Flags.watch_stacks_dir := None |} (world "" false))) _ _);
      vm_compute; discriminate.
Defined.

(** [app] is created, another stack is handled, [app] comes again. *)
Lemma placeholder_is_updated_under_id_0_witness :
  let sMap1 := valueOf (manageStack config "web" "app" ers ∅ (world "" false)) in
  let sMap2 :=
    valueOf (Run_watch config ["/stacks/web/other/docker-compose.yml"] ers sMap1
               (world "" false)) in
  let later := manageStack config "web" "app" ers sMap2 (world "" false) in
  sMap1 !! "3-app" = Some Stack.zero
  ∧ sMap2 !! "3-app" = Some Stack.zero
  ∧ valueOf later = sMap2
  ∧ sentWith "POST" (traceOf later) = [].
Proof.
  intros sMap1 sMap2 later.
  assert (ers !! "web" = Some web) as Hweb by reflexivity.
  assert ((∅ : gmap string Stack.t) !! keyOf web "app" = None) as Habsent
    by apply lookup_empty.
  destruct (placeholder_is_updated_under_id_0 config "web" "app" ers ∅
              (world "" false) web Hweb Habsent) as (H1 & _ & _ & Hlater).
  destruct (Hlater ["/stacks/web/other/docker-compose.yml"] (world "" false))
    as (H2 & Hsame).
  destruct (Hsame (world "" false)) as (H3 & _ & H4 & _).
  split_and!; [exact H1 | exact H2 | exact H3 | exact H4].
Defined.

(** The entry of [app] through creations, updates and skipped events. *)
Lemma inventory_only_grows_witness :
  valueOf (manageStack config "web" "other" ers known (world "" false)) !! "3-app"
  = Some stack9
  ∧ valueOf (manageStack config "web" "app" ers known (world "" false)) = known
  ∧ valueOf (manageStack config "web" "other" ers known (world "" false))
    = <["3-other" := Stack.zero]> known
  ∧ valueOf (manageStack config "db" "app" ers known (world "" false)) = known
  ∧ valueOf (Run_watch config ["/stacks/web/other/docker-compose.yml"; "/stacks"]
               ers known (world "" false)) !! "3-app" = Some stack9.
Proof.
  destruct (inventory_only_grows config ers) as (Hkeep & Hupd & Hcre & Hskip & Hrun).
  split_and!.
  - apply Hkeep. reflexivity.
  - apply (Hupd "web" "app" web); [reflexivity|]. exists stack9. reflexivity.
  - apply (Hcre "web" "other" web); reflexivity.
  - apply Hskip. reflexivity.
  - apply Hrun. reflexivity.
Defined.

End DemoRuns.

(** * Further properties of the code *)

(** ** The composite key determines the endpoint id and the stack name *)

Lemma pretty_N_char_isDigit (d : N) : isDigit (pretty_N_char d) = true.
Proof. unfold pretty_N_char. by repeat case_match. Qed.

Lemma pretty_N_go_allDigits (x : N) (s : string) :
  allDigits s = true → allDigits (pretty_N_go x s) = true.
Proof.
  revert s; induction (N.lt_wf_0 x) as [x _ IH]; intros s Hs.
  assert (x = 0 ∨ 0 < x)%N as [->|Hpos] by lia; [by rewrite pretty_N_go_0|].
  rewrite pretty_N_go_step by done. apply IH.
  - by apply N.div_lt.
  - simpl. by rewrite pretty_N_char_isDigit.
Qed.

Lemma pretty_N_go_nonempty (x : N) (s : string) :
  s ≠ "" → pretty_N_go x s ≠ "".
Proof.
  revert s; induction (N.lt_wf_0 x) as [x _ IH]; intros s Hs.
  assert (x = 0 ∨ 0 < x)%N as [->|Hpos] by lia; [by rewrite pretty_N_go_0|].
  rewrite pretty_N_go_step by done. apply IH; [by apply N.div_lt | done].
Qed.

(** A natural number prints as a non-empty string of digits. *)
Lemma pretty_N_digits (x : N) : allDigits (pretty x) = true ∧ pretty x ≠ "".
Proof.
  unfold pretty, pretty_N. case_decide as Hx; [done|]. split.
  - by apply pretty_N_go_allDigits.
  - rewrite pretty_N_go_step by lia. by apply pretty_N_go_nonempty.
Qed.

(** An integer prints as digits, after a minus sign when it is negative. *)
Lemma pretty_Z_shape (z : Z) :
  ∃ d, allDigits d = true ∧ d ≠ "" ∧
       (pretty z = d ∨ pretty z = String "-" d).
Proof.
  destruct z as [|p|p]; unfold pretty, pretty_Z.
  - exists "0". by split_and!; [..|left].
  - exists (pretty (N.pos p)).
    destruct (pretty_N_digits (N.pos p)). by split_and!; [..|left].
  - exists (pretty (N.pos p)).
    destruct (pretty_N_digits (N.pos p)). by split_and!; [..|right].
Qed.

(** The first hyphen after a run of digits ends the run. *)
Lemma digits_hyphen_split (a b n1 n2 : string) :
  allDigits a = true → allDigits b = true →
  a +:+ String "-" n1 = b +:+ String "-" n2 → a = b ∧ n1 = n2.
Proof.
  revert b; induction a as [|x a IH]; intros [|y b] Ha Hb Heq;
    rewrite ?append_cons, ?append_nil_l in Heq; simpl in Ha, Hb.
  - by simplify_eq.
  - apply andb_prop in Hb as [Hy _]. by simplify_eq.
  - apply andb_prop in Ha as [Hx _]. by simplify_eq.
  - apply andb_prop in Ha as [_ Ha]. apply andb_prop in Hb as [_ Hb].
    injection Heq as -> Heq. destruct (IH b Ha Hb Heq) as [-> ->]. done.
Qed.

Lemma key_pair_inj (id1 id2 : Z) (n1 n2 : string) :
  fmt.Sprintf "%d-%s" [Int id1; Str n1] = fmt.Sprintf "%d-%s" [Int id2; Str n2] →
  id1 = id2 ∧ n1 = n2.
Proof.
  rewrite !Sprintf_d_s, !(append_cons "-" ""), !append_nil_l.
  destruct (pretty_Z_shape id1) as (d1 & Hd1 & Hne1 & Hp1).
  destruct (pretty_Z_shape id2) as (d2 & Hd2 & Hne2 & Hp2).
  intros Heq.
  assert (pretty id1 = pretty id2 ∧ n1 = n2) as [Hp ->].
  { destruct Hp1 as [Hp1|Hp1], Hp2 as [Hp2|Hp2]; rewrite Hp1, Hp2 in *.
    - destruct (digits_hyphen_split d1 d2 n1 n2) as [-> ->]; done.
    - destruct d1 as [|c d1]; [done|]. rewrite !append_cons in Heq.
      simpl in Hd1. apply andb_prop in Hd1 as [Hc _]. by simplify_eq.
    - destruct d2 as [|c d2]; [done|]. rewrite !append_cons in Heq.
      simpl in Hd2. apply andb_prop in Hd2 as [Hc _]. by simplify_eq.
    - rewrite !append_cons in Heq. injection Heq as Heq.
      destruct (digits_hyphen_split d1 d2 n1 n2) as [-> ->]; done. }
  split; [|done]. by apply (inj pretty).
Qed.

(** X1. Two stacks have the same composite key only if they have the same
    endpoint id and the same name, whatever hyphens and digits the names
    contain; the same holds of the key [manageStack] computes from an endpoint
    and a stack name. *)
Theorem composite_key_determines_id_and_name :
  (∀ s1 s2 : Stack.t,
     idFromStack s1 = idFromStack s2 →
     Stack.EndpointId s1 = Stack.EndpointId s2 ∧ Stack.Name s1 = Stack.Name s2)
  ∧ (∀ (v1 v2 : Endpoint.t) (stack1 stack2 : string),
       keyOf v1 stack1 = keyOf v2 stack2 →
       Endpoint.ID v1 = Endpoint.ID v2 ∧ stack1 = stack2).
Proof.
  split.
  - intros s1 s2. apply key_pair_inj.
  - intros v1 v2 stack1 stack2. apply key_pair_inj.
Qed.

(** ** The configuration built from the flags *)

Lemma substring_at_end (s : string) (c : ascii) :
  String.substring (String.length s) 1 (s +:+ String c "") = String c "".
Proof.
  induction s as [|x s IH]; [done|].
  rewrite append_cons. simpl. exact IH.
Qed.

Lemma HasSuffix_append_byte (s : string) (c : ascii) :
  strings.HasSuffix (s +:+ String c "") (String c "") = true.
Proof.
  unfold strings.HasSuffix. rewrite append_length; simpl.
  rewrite bool_decide_true by lia.
  replace (String.length s + 1 - 1)%nat with (String.length s) by lia.
  by rewrite substring_at_end, bool_decide_true.
Qed.

Lemma HasSuffix_byte_cons (x c : ascii) (s : string) :
  s ≠ "" →
  strings.HasSuffix (String x s) (String c "") = strings.HasSuffix s (String c "").
Proof.
  intros Hs. destruct s as [|y s]; [done|].
  unfold strings.HasSuffix. simpl String.length.
  rewrite !bool_decide_true by lia.
  replace (S (S (String.length s)) - 1)%nat with (S (String.length s)) by lia.
  replace (S (String.length s) - 1)%nat with (String.length s) by lia.
  reflexivity.
Qed.

(** [strings.HasSuffix] on a suffix of one byte finds the rest of the
    string. *)
Lemma HasSuffix_byte_split (s : string) (c : ascii) :
  strings.HasSuffix s (String c "") = true → ∃ p, s = p +:+ String c "".
Proof.
  induction s as [|x s IH]; [done|].
  destruct s as [|y s].
  - unfold strings.HasSuffix; simpl. intros H.
    apply bool_decide_eq_true in H. exists "". by rewrite append_nil_l.
  - rewrite HasSuffix_byte_cons by done. intros H.
    destruct (IH H) as [p Hp]. exists (String x p).
    by rewrite append_cons, <-Hp.
Qed.

(** X2. Whatever flags are given, the root directory of the configuration
    ends with a separator: the directory of the flag (or the default
    [./stacks/]) is kept when it ends with [/] and gets one appended
    otherwise; the address, the key and the watch switch are those of the
    flags, or the defaults (empty, empty, off). *)
Theorem config_root_ends_with_separator (args : Flags.t) :
  let cfg := NewConfigFromFlags args in
  let given := default "./stacks/" (Flags.stack_files_dir args) in
  strings.HasSuffix (Config.StackFilesDir cfg) "/" = true
  ∧ (∃ p, Config.StackFilesDir cfg = p +:+ "/")
  ∧ Config.StackFilesDir cfg
    = (if strings.HasSuffix given "/" then given else given +:+ "/")
  ∧ Config.PortainerAddress cfg = default "" (Flags.portainer_address args)
  ∧ Config.APIKey cfg = default "" (Flags.api_key args)
  ∧ Config.WatchStackdsDir cfg = default false (Flags.watch_stacks_dir args).
Proof.
  intros cfg given.
  assert (Config.StackFilesDir cfg
          = (if strings.HasSuffix given "/" then given else given +:+ "/")) as Hdir.
  { subst cfg given. unfold NewConfigFromFlags. simpl.
    by destruct (strings.HasSuffix _ "/"). }
  assert (strings.HasSuffix (Config.StackFilesDir cfg) "/" = true) as Hsuf.
  { rewrite Hdir. destruct (strings.HasSuffix given "/") eqn:Hg; [done|].
    apply HasSuffix_append_byte. }
  split_and!; [done | by apply HasSuffix_byte_split | done | ..];
    subst cfg; unfold NewConfigFromFlags; simpl;
    by destruct (strings.HasSuffix _ "/").
Qed.

(** ** Startup, from the first request to the listing of the root *)

(** A table filled by a loop of insertions maps each key to the last element
    of the list that has it. *)
Lemma foldl_insert_lookup {A : Type} (key : A → string) (l : list A)
    (m : gmap string A) (k : string) :
  foldl (λ m x, <[key x := x]> m) m l !! k
  = match last (filter (λ x, key x = k) l) with
    | Some x => Some x
    | None => m !! k
    end.
Proof.
  revert m; induction l as [|x l IH]; intros m; simpl; [done|].
  rewrite IH, filter_cons. case_decide as Hx.
  - rewrite last_cons. destruct (last (filter _ l)); [done|].
    by rewrite Hx, lookup_insert_eq.
  - destruct (last (filter _ l)); [done|]. by rewrite lookup_insert_ne.
Qed.

Lemma last_filter_holds {A : Type} (P : A → Prop) `{!∀ x, Decision (P x)}
    (l : list A) (x : A) :
  last (filter P l) = Some x → P x.
Proof.
  intros Hlast. apply last_Some_elem_of in Hlast.
  by apply list_elem_of_filter in Hlast as [? _].
Qed.

Section Startup.
Context {World : Type} `{!Platform World}.
Implicit Types (w : World).

#[local] Arguments fmt.Sprintf : simpl never.


(** X4. When [Run] reaches the fan-out, its two tables are those of the
    lists the server sent: the endpoints table maps a name to the last
    endpoint of the list with that name, the inventory maps a key to the last
    stack of the list with that key, so every stack of the inventory sits under
    its own composite key; and the nodes are the listing of the root. *)
Theorem startup_tables (args : Flags.t) w (st : Started.t) :
  valueOf (Run_startup args w) = Ok st →
  let config := NewConfigFromFlags args in
  ∃ (bodyE bodyS : string) (w1 w2 w3 : World)
    (endpoints : Endpoints) (stacks : StacksResponse),
    client_Do (getEndpoints config) w = (Ok bodyE, w1)
    ∧ Decode bodyE = Ok endpoints
    ∧ client_Do (getStacks config) w1 = (Ok bodyS, w2)
    ∧ Decode bodyS = Ok stacks
    ∧ os_ReadDir (Config.StackFilesDir config) w2 = (Ok (Started.nodes st), w3)
    ∧ worldOf (Run_startup args w) = w3
    ∧ (∀ name : string,
         Started.endpointsByName st !! name
         = last (filter (λ e, Endpoint.Name e = name) endpoints))
    ∧ (∀ k : string,
         Started.stacksById st !! k
         = last (filter (λ s, idFromStack s = k) stacks))
    ∧ (∀ (k : string) (s : Stack.t),
         Started.stacksById st !! k = Some s → idFromStack s = k).
Proof.
  intros Hok config. revert Hok.
  unfold Run_startup. fold config.
  unfold valueOf, worldOf, getEndpoints, getStacks.
  case_bool_decide; [done|]. case_bool_decide; [done|].
  rewrite !NewRequest_eq.
  destruct (url_Parse (EndpointsURL config)); [done|].
  unfold doRequest, Do_, ReadDir_, Header_Add, bind, ret; simpl.
  destruct (client_Do _ w) as [[bodyE|e] w1] eqn:HE; simpl; [|done].
  destruct (Decode bodyE) as [endpoints|e] eqn:HdE; simpl; [|done].
  destruct (url_Parse (StacksURL config)); simpl; [done|].
  destruct (client_Do _ w1) as [[bodyS|e] w2] eqn:HS; simpl; [|done].
  destruct (Decode bodyS) as [stacks|e] eqn:HdS; simpl; [|done].
  destruct (os_ReadDir _ w2) as [[nodes|e] w3] eqn:HR; simpl; [|done].
  intros [= <-]; simpl.
  assert (∀ k : string,
            foldl (λ m s, <[idFromStack s := s]> m) (∅ : gmap string Stack.t) stacks !! k
            = last (filter (λ s, idFromStack s = k) stacks)) as Hinv.
  { intros k. rewrite (foldl_insert_lookup idFromStack).
    by destruct (last _). }
  exists bodyE, bodyS, w1, w2, w3, endpoints, stacks.
  split_and!; try done.
  - intros name. rewrite (foldl_insert_lookup Endpoint.Name).
    by destruct (last _).
  - intros k s. rewrite Hinv. intros Hlast.
    by apply (last_filter_holds (λ s, idFromStack s = k)) in Hlast.
Qed.

End Startup.

(** ** The two paths, error by error *)

Lemma errorLines_app (t1 t2 : list Event) :
  errorLines (t1 ++ t2) = errorLines t1 ++ errorLines t2.
Proof.
  induction t1 as [|[] t1 IH]; simpl; by rewrite ?IH.
Qed.

Section Paths.
Context {World : Type} `{!Platform World}.
Implicit Types (config : Config.t) (node stack : string) (w : World).
Implicit Types (ers : gmap string Endpoint.t) (sMap : gmap string Stack.t).

#[local] Arguments fmt.Sprintf : simpl never.

(** [updateStack] and [createStack] hand their errors back; they log none. *)
Lemma updateStack_errorLines config node stack endpoint sMap w :
  errorLines (traceOf (updateStack config node stack endpoint sMap w)) = [].
Proof.
  unfold updateStack, doRequest, traceOf, ReadFile_, Do_, emit, ret, bind.
  destruct (os_ReadFile _ w) as [[sf|e] w1]; simpl; [|done].
  by repeat (case_match; simplify_eq/=).
Qed.

Lemma createStack_errorLines config node stack endpoint w :
  errorLines (traceOf (createStack config node stack endpoint w)) = [].
Proof.
  unfold createStack, doRequest, traceOf, ReadFile_, Do_, emit, ret, bind.
  destruct (os_ReadFile _ w) as [[sf|e] w1]; simpl; [|done].
  by repeat (case_match; simplify_eq/=).
Qed.

(** With the entry in the inventory, [updateStack] has no reason to say
    that the stack is not found. *)
Lemma updateStack_found config node stack endpoint sMap w (s : Stack.t) :
  sMap !! keyOf endpoint stack = Some s →
  valueOf (updateStack config node stack endpoint sMap w)
  ≠ Some (Errorf "stack %s not found on node %s" [Str stack; Str node]).
Proof.
  intros Hs.
  unfold updateStack, doRequest, valueOf, ReadFile_, Do_, emit, ret, bind.
  fold (keyOf endpoint stack). rewrite Hs.
  destruct (os_ReadFile _ w) as [[sf|e] w1]; simpl; [|done].
  by repeat (case_match; simplify_eq/=).
Qed.

(** X5. [updateStack] sends a [PUT] only when everything before it went
    well and the contents differ: the compose file was read, the inventory has
    the entry, the [GET] of the entry's file was answered and decoded, and the
    decoded content is not the local one.  The [PUT] is then the one on that
    entry, carrying the encoding of the local content with [PullImage] set. *)
Theorem put_only_after_differing_fetch config node stack endpoint sMap w
    (req : Request.t) :
  req ∈ sentWith "PUT" (traceOf (updateStack config node stack endpoint sMap w)) →
  ∃ (sf : string) (w1 : World) (s : Stack.t) (body : string) (w2 : World)
    (sfc : CreateStackRequest.t) (bodys : string),
    os_ReadFile (composePath node stack) w = (Ok sf, w1)
    ∧ sMap !! keyOf endpoint stack = Some s
    ∧ client_Do (getFile config (Stack.ID s)) w1 = (Ok body, w2)
    ∧ Decode body = Ok sfc
    ∧ CreateStackRequest.StackFileContent sfc ≠ sf
    ∧ Marshal {| BodyComposeUpdate.StackFileContent := sf;
                 BodyComposeUpdate.PullImage := true |} = Ok bodys
    ∧ req = putStack config (Stack.ID s) (Endpoint.ID endpoint) bodys.
Proof.
  unfold updateStack, doRequest, traceOf, ReadFile_, Do_, emit, ret, bind.
  rewrite Sprintf_compose_path. fold (composePath node stack).
  fold (keyOf endpoint stack).
  destruct (os_ReadFile (composePath node stack) w) as [[sf|e] w1] eqn:Hread;
    simpl; [|by intros ?%elem_of_nil].
  destruct (sMap !! keyOf endpoint stack) as [s|] eqn:Hs; simpl;
    [|by intros ?%elem_of_nil].
  rewrite NewRequest_eq, Sprintf_file_url.
  destruct (url_Parse _); simpl; [by intros ?%elem_of_nil|].
  unfold Header_Add; simpl. fold (getFile config (Stack.ID s)).
  destruct (client_Do (getFile config (Stack.ID s)) w1) as [[body|e] w2] eqn:Hget;
    simpl; [|by intros ?%elem_of_nil].
  destruct (Decode body) as [sfc|e] eqn:Hdec; simpl; [|by intros ?%elem_of_nil].
  case_bool_decide as Hcmp; simpl; [by intros ?%elem_of_nil|].
  rewrite Compare_eq_0 in Hcmp.
  destruct (Marshal _) as [bodys|e] eqn:Hm; simpl; [|by intros ?%elem_of_nil].
  rewrite NewRequest_eq, Sprintf_update_url.
  destruct (url_Parse _); simpl; [by intros ?%elem_of_nil|].
  fold (putStack config (Stack.ID s) (Endpoint.ID endpoint) bodys).
  intros Hin.
  assert (req = putStack config (Stack.ID s) (Endpoint.ID endpoint) bodys) as ->.
  { destruct (client_Do _ w2) as [[?|?] ?]; simpl in Hin;
      by apply list_elem_of_singleton in Hin. }
  by exists sf, w1, s, body, w2, sfc, bodys.
Qed.

(** X6. The error [stack ... not found on node ...] of [updateStack] is what
    a readable compose file and a missing inventory entry give, with no
    request sent; [manageStack] only calls [updateStack] with the entry
    present, so no line it logs ever carries that error. *)
Theorem stack_not_found_needs_missing_entry config node stack sMap w :
  (∀ endpoint sf w1,
     sMap !! keyOf endpoint stack = None →
     os_ReadFile (composePath node stack) w = (Ok sf, w1) →
     updateStack config node stack endpoint sMap w
     = (Some (Errorf "stack %s not found on node %s" [Str stack; Str node]),
        w1, [ReadFile (composePath node stack)]))
  ∧ (∀ ers (format : string) (e : error),
       (format, e) ∈ errorLines (traceOf (manageStack config node stack ers sMap w)) →
       e ≠ Errorf "stack %s not found on node %s" [Str stack; Str node]).
Proof.
  split.
  - intros endpoint sf w1 Hs Hread.
    unfold updateStack, ReadFile_, ret, bind.
    rewrite Sprintf_compose_path. fold (composePath node stack).
    fold (keyOf endpoint stack). by rewrite Hread, Hs.
  - intros ers format e.
    destruct (ers !! node) as [v1|] eqn:Hn.
    2: { unfold manageStack. rewrite Hn. by intros ?%elem_of_nil. }
    destruct (sMap !! keyOf v1 stack) as [s|] eqn:Hs.
    + rewrite (manageStack_update_path _ _ _ _ _ _ v1 s) by done.
      pose proof (updateStack_errorLines config node stack v1 sMap w) as Hnone.
      pose proof (updateStack_found config node stack v1 sMap w s Hs) as Hfound.
      destruct (updateStack _ _ _ _ _ _) as [[err w'] t].
      unfold traceOf, valueOf in *; simpl in *.
      rewrite errorLines_app, Hnone. destruct err as [e'|]; simpl.
      * intros [= -> ->]%list_elem_of_singleton. congruence.
      * by intros ?%elem_of_nil.
    + rewrite (manageStack_create_path _ _ _ _ _ _ v1) by done.
      pose proof (createStack_errorLines config node stack v1 w) as Hnone.
      destruct (createStack config node stack v1 w) as [[err w'] t] eqn:Hc.
      unfold traceOf in *; simpl in *.
      rewrite errorLines_app, Hnone. destruct err as [e'|]; simpl.
      * intros [= -> ->]%list_elem_of_singleton. intros ->.
        revert Hc.
        unfold createStack, doRequest, ReadFile_, Do_, emit, ret, bind.
        destruct (os_ReadFile _ w) as [[sf|e] w1]; simpl; [|done].
        by repeat (case_match; simplify_eq/=).
      * by intros ?%elem_of_nil.
Qed.

(** X7. [createStack]: when the compose file cannot be read it returns
    the wrapped error and sends nothing; when it can, it sends exactly one
    request, the [POST] whose body encodes the stack name and the content of
    the file, and it returns no error exactly when the transport answered --
    the body of the answer is not looked at. *)
Theorem create_posts_name_and_content config node stack endpoint w :
  (∀ e w1,
     os_ReadFile (composePath node stack) w = (Err e, w1) →
     createStack config node stack endpoint w
     = (Some (ErrorfE "failed to read file './stacks/%s/%s/docker-compose.yml': %w"
                [Str node; Str stack] e),
        w1, [ReadFile (composePath node stack)]))
  ∧ (∀ sf w1 s,
       os_ReadFile (composePath node stack) w = (Ok sf, w1) →
       Marshal {| CreateStackRequest.Name := stack;
                  CreateStackRequest.StackFileContent := sf |} = Ok s →
       let post := postStack config (Endpoint.ID endpoint) s in
       url_Parse (Request.URL post) = None →
       traceOf (createStack config node stack endpoint w)
       = [ReadFile (composePath node stack); Do post]
       ∧ worldOf (createStack config node stack endpoint w) = (client_Do post w1).2
       ∧ (valueOf (createStack config node stack endpoint w) = None
          ↔ ∃ body, (client_Do post w1).1 = Ok body)).
Proof.
  split.
  - intros e w1 Hread. unfold createStack, ReadFile_, ret, bind.
    rewrite Sprintf_compose_path. fold (composePath node stack).
    by rewrite Hread.
  - intros sf w1 s Hread Hm post Hurl. subst post. simpl in Hurl.
    unfold createStack, doRequest, traceOf, worldOf, valueOf,
      ReadFile_, Do_, emit, ret, bind.
    rewrite Sprintf_compose_path. fold (composePath node stack).
    rewrite Hread; simpl. rewrite Hm, NewRequest_eq, Sprintf_create_url, Hurl.
    unfold Header_Add; simpl. fold (postStack config (Endpoint.ID endpoint) s).
    destruct (client_Do _ w1) as [[body|e] w2]; simpl.
    + split_and!; [done..|]. split; [eauto|done].
    + split_and!; [done..|]. split; [done|]. by intros [? ?].
Qed.

(** X8. On a node the server knows, one call of [manageStack] reads the
    compose file exactly once, sends at most two requests (at most one on the
    create path), and logs an error line exactly when the path it took
    returned an error: that error, once. *)
Theorem manageStack_effects_are_bounded config node stack ers sMap w v1 :
  ers !! node = Some v1 →
  let run := manageStack config node stack ers sMap w in
  filesRead (traceOf run) = [composePath node stack]
  ∧ (length (requests (traceOf run)) ≤ 2)%nat
  ∧ (sMap !! keyOf v1 stack = None → (length (requests (traceOf run)) ≤ 1)%nat)
  ∧ (∀ s, sMap !! keyOf v1 stack = Some s →
       errorLines (traceOf run)
       = match valueOf (updateStack config node stack v1 sMap w) with
         | Some e => [("failed to update stack: %s", e)]
         | None => []
         end)
  ∧ (sMap !! keyOf v1 stack = None →
       errorLines (traceOf run)
       = match valueOf (createStack config node stack v1 w) with
         | Some e => [("failed to create stack: %s", e)]
         | None => []
         end).
Proof.
  intros Hn run. subst run.
  destruct (sMap !! keyOf v1 stack) as [s|] eqn:Hs.
  - rewrite (manageStack_update_requests _ _ _ _ _ _ v1 s) by done.
    rewrite (manageStack_update_path _ _ _ _ _ _ v1 s) by done.
    pose proof (updateStack_reads config node stack v1 sMap w) as Hr.
    pose proof (updateStack_errorLines config node stack v1 sMap w) as He.
    pose proof (updateStack_requests config node stack v1 sMap w) as Hq.
    destruct (updateStack _ _ _ _ _ _) as [[err w'] t].
    unfold traceOf, valueOf in *; simpl in *.
    rewrite filesRead_app, errorLines_app, Hr, He.
    split_and!.
    + by destruct err.
    + destruct Hq as [->|(s' & _ & [->|(bodys & _ & ->)])]; simpl; lia.
    + done.
    + intros s' _. by destruct err.
    + done.
  - rewrite (manageStack_create_requests _ _ _ _ _ _ v1) by done.
    rewrite (manageStack_create_path _ _ _ _ _ _ v1) by done.
    pose proof (createStack_reads config node stack v1 w) as Hr.
    pose proof (createStack_errorLines config node stack v1 w) as He.
    pose proof (createStack_requests config node stack v1 w) as Hq.
    destruct (createStack _ _ _ _ _) as [[err w'] t].
    unfold traceOf, valueOf in *; simpl in *.
    rewrite filesRead_app, errorLines_app, Hr, He.
    assert (length (requests t) ≤ 1)%nat as Hlen.
    { destruct Hq as [->|(sf & bodys & _ & _ & ->)]; simpl; lia. }
    split_and!.
    + by destruct err.
    + lia.
    + done.
    + done.
    + intros _. by destruct err.
Qed.

End Paths.

(** ** The watch loop, event after event *)

Lemma Split_length (s : string) (sep : ascii) :
  length (strings.Split s sep) = S (countByte sep s).
Proof.
  induction s as [|c s IH]; simpl; [done|].
  case_bool_decide; simpl; [by rewrite IH|].
  pose proof (Split_nonempty s sep).
  destruct (strings.Split s sep); [done|]. simpl in *. lia.
Qed.

(** No segment contains the separator. *)
Lemma Split_segments (s : string) (sep : ascii) (seg : string) :
  seg ∈ strings.Split s sep → hasByte sep seg = false.
Proof.
  revert seg; induction s as [|c s IH]; intros seg; simpl.
  - by intros ->%list_elem_of_singleton.
  - case_bool_decide as Hc.
    + intros [->|Hin]%elem_of_cons; [done|]. by apply IH.
    + pose proof (Split_nonempty s sep).
      destruct (strings.Split s sep) as [|seg0 segs]; [done|].
      intros [->|Hin]%elem_of_cons.
      * simpl. rewrite bool_decide_false by done. apply IH, elem_of_cons. by left.
      * apply IH, elem_of_cons. by right.
Qed.

Lemma sentWith_app (method : string) (t1 t2 : list Event) :
  sentWith method (t1 ++ t2) = sentWith method t1 ++ sentWith method t2.
Proof. unfold sentWith. by rewrite requests_app, filter_app. Qed.

Section WatchLoop.
Context {World : Type} `{!Platform World}.
Implicit Types (config : Config.t) (node stack path : string) (w : World).
Implicit Types (ers : gmap string Endpoint.t) (sMap : gmap string Stack.t).
Implicit Types (events : list string).

(** One turn of the loop: the event is dropped, or one reconciliation runs
    on two names free of separators. *)
Lemma Run_watchEvent_cases config path ers sMap w :
  ((countByte "/" path < 2)%nat ∧
   Run_watchEvent config path ers sMap w
   = (sMap, w, [Printf "skip path: %s" [Str path]]))
  ∨ ((2 ≤ countByte "/" path)%nat ∧
     ∃ node stack,
       hasByte "/" node = false ∧ hasByte "/" stack = false ∧
       Run_watchEvent config path ers sMap w
       = bind (emit (Printf "deploy: %s/%s" [Str node; Str stack]))
           (λ _, manageStack config node stack ers sMap) w).
Proof.
  unfold Run_watchEvent.
  pose proof (Split_length path "/") as Hlen.
  case_bool_decide as Hshort.
  - left. split; [lia|done].
  - right. split; [lia|].
    destruct (last_three (strings.Split path "/")) as (before & x & y & z & Hsplit);
      [lia|].
    exists x, y. rewrite Hsplit, drop_all_but_three.
    split_and!; [..|done].
    + apply (Split_segments path "/"). rewrite Hsplit.
      apply elem_of_app. right. apply elem_of_cons. by left.
    + apply (Split_segments path "/"). rewrite Hsplit.
      apply elem_of_app. right. apply elem_of_cons. right.
      apply elem_of_cons. by left.
Qed.

Lemma Run_watch_cons config path events ers sMap w :
  Run_watch config (path :: events) ers sMap w
  = let '(sMap1, w1, t1) := Run_watchEvent config path ers sMap w in
    let '(sMap2, w2, t2) := Run_watch config events ers sMap1 w1 in
    (sMap2, w2, t1 ++ t2).
Proof. reflexivity. Qed.

(** What one turn of the loop does is what one call of [manageStack] does,
    but for a log line in front. *)
Lemma Run_watchEvent_as_manageStack config path ers sMap w :
  ∃ node stack (line : Event),
    requests [line] = [] ∧ filesRead [line] = [] ∧ errorLines [line] = [] ∧
    (Run_watchEvent config path ers sMap w = (sMap, w, [line])
     ∨ Run_watchEvent config path ers sMap w
       = (valueOf (manageStack config node stack ers sMap w),
          worldOf (manageStack config node stack ers sMap w),
          line :: traceOf (manageStack config node stack ers sMap w))).
Proof.
  destruct (Run_watchEvent_cases config path ers sMap w)
    as [[_ ->]|(_ & node & stack & _ & _ & ->)].
  - exists "", "", (Printf "skip path: %s" [Str path]). split_and!; [done..|by left].
  - exists node, stack, (Printf "deploy: %s/%s" [Str node; Str stack]).
    split_and!; [done..|right].
    unfold bind, emit.
    by destruct (manageStack _ _ _ _ _ _) as [[sMap' w'] t'].
Qed.

(** A property of inventories and traces that every call of [manageStack]
    keeps, log lines do not disturb and concatenation respects, is kept by the
    whole loop. *)
Lemma Run_watch_ind config ers
    (P : gmap string Stack.t → gmap string Stack.t → list Event → Prop) :
  (∀ sMap, P sMap sMap []) →
  (∀ sMap (line : Event),
     requests [line] = [] → filesRead [line] = [] → errorLines [line] = [] →
     P sMap sMap [line]) →
  (∀ sMap node stack w,
     P sMap (valueOf (manageStack config node stack ers sMap w))
       (traceOf (manageStack config node stack ers sMap w))) →
  (∀ m1 m2 m3 t1 t2, P m1 m2 t1 → P m2 m3 t2 → P m1 m3 (t1 ++ t2)) →
  ∀ events sMap w,
    P sMap (valueOf (Run_watch config events ers sMap w))
      (traceOf (Run_watch config events ers sMap w)).
Proof.
  intros Hnil Hline Hcall Happ events.
  induction events as [|path events IH]; intros sMap w; [apply Hnil|].
  rewrite Run_watch_cons.
  destruct (Run_watchEvent_as_manageStack config path ers sMap w)
    as (node & stack & line & Hq & Hf & He & [Hev|Hev]); rewrite Hev.
  - specialize (IH sMap w).
    destruct (Run_watch config events ers sMap w) as [[sMap2 w2] t2].
    unfold valueOf, traceOf in *; simpl in *.
    apply (Happ sMap sMap sMap2 [line] t2); [by apply Hline | done].
  - pose proof (Hcall sMap node stack w) as Hc.
    destruct (manageStack config node stack ers sMap w) as [[sMap1 w1] t1].
    unfold valueOf, worldOf, traceOf in *; simpl in *.
    specialize (IH sMap1 w1).
    destruct (Run_watch config events ers sMap1 w1) as [[sMap2 w2] t2].
    simpl in *.
    apply (Happ sMap sMap1 sMap2 (line :: t1) t2); [|done].
    apply (Happ sMap sMap sMap1 [line] t1); [by apply Hline | done].
Qed.

(** X9. An event is dropped exactly when its path has fewer than two
    separators; any other event starts one reconciliation, on a node name and
    a stack name that contain no separator. *)
Theorem watch_drops_paths_with_fewer_than_two_separators config path ers sMap w :
  ((countByte "/" path < 2)%nat →
     Run_watchEvent config path ers sMap w
     = (sMap, w, [Printf "skip path: %s" [Str path]]))
  ∧ ((2 ≤ countByte "/" path)%nat →
       ∃ node stack,
         hasByte "/" node = false ∧ hasByte "/" stack = false ∧
         Run_watchEvent config path ers sMap w
         = bind (emit (Printf "deploy: %s/%s" [Str node; Str stack]))
             (λ _, manageStack config node stack ers sMap) w).
Proof.
  destruct (Run_watchEvent_cases config path ers sMap w)
    as [[Hlt Hskip]|(Hge & Hrun)].
  - split; [done|]. intros ?. lia.
  - split; [|done]. intros ?. lia.
Qed.


(** X11. Every request the watch loop sends is one of the three requests of
    the reconciler, so it carries the configured API key as its only header
    and its method is [GET], [PUT] or [POST]. *)
Theorem watch_requests_carry_the_api_key config events ers sMap w
    (req : Request.t) :
  req ∈ requests (traceOf (Run_watch config events ers sMap w)) →
  (∃ id eid bodys,
     req = getFile config id ∨ req = putStack config id eid bodys
     ∨ req = postStack config eid bodys)
  ∧ Request.Header req = [("X-API-Key", Config.APIKey config)]
  ∧ Request.Method req ∈ ["GET"; "PUT"; "POST"].
Proof.
  intros Hin.
  assert (∃ id eid bodys,
     req = getFile config id ∨ req = putStack config id eid bodys
     ∨ req = postStack config eid bodys) as Hshape.
  { revert Hin.
    apply (Run_watch_ind config ers
             (λ _ _ t, req ∈ requests t →
                ∃ id eid bodys,
                  req = getFile config id ∨ req = putStack config id eid bodys
                  ∨ req = postStack config eid bodys)).
    - intros _. by intros ?%elem_of_nil.
    - intros _ line Hq _ _. rewrite Hq. by intros ?%elem_of_nil.
    - intros m node stack w' Hin.
      apply manageStack_requests in Hin
        as (v1 & _ & [(s & _ & [->|[bodys ->]])|(_ & bodys & ->)]).
      + exists (Stack.ID s), 0, "". by left.
      + exists (Stack.ID s), (Endpoint.ID v1), bodys. right; by left.
      + exists 0, (Endpoint.ID v1), bodys. right; by right.
    - intros _ _ _ t1 t2 H1 H2. rewrite requests_app.
      intros [?|?]%elem_of_app; eauto. }
  split; [done|].
  destruct Hshape as (id & eid & bodys & [->|[->| ->]]); simpl;
    (split; [done|]); set_solver.
Qed.

(** X12. The loop creates a stack at most once per key: the [POST]s it
    sends are no more than the keys it adds to the inventory. *)
Theorem watch_posts_at_most_once_per_new_key config events ers sMap w :
  (length (sentWith "POST" (traceOf (Run_watch config events ers sMap w)))
   + size sMap
   ≤ size (valueOf (Run_watch config events ers sMap w)))%nat.
Proof.
  apply (Run_watch_ind config ers
           (λ m m' t, (length (sentWith "POST" t) + size m ≤ size m')%nat)).
  - intros m. simpl. lia.
  - intros m line Hq _ _. unfold sentWith. rewrite Hq. simpl. lia.
  - intros m node stack w'. rewrite manageStack_inventory.
    destruct (ers !! node) as [v1|] eqn:Hn.
    2: { unfold manageStack. rewrite Hn. simpl. lia. }
    destruct (m !! keyOf v1 stack) as [s|] eqn:Hs.
    + unfold sentWith.
      rewrite (manageStack_update_requests _ _ _ _ _ _ v1 s) by done.
      destruct (updateStack_requests config node stack v1 m w')
        as [->|(s' & _ & [->|(bodys & _ & ->)])]; simpl; lia.
    + unfold sentWith.
      rewrite (manageStack_create_requests _ _ _ _ _ _ v1) by done.
      rewrite map_size_insert_None by done.
      destruct (createStack_requests config node stack v1 w')
        as [->|(sf & bodys & _ & _ & ->)]; simpl; lia.
  - intros m1 m2 m3 t1 t2 H1 H2. rewrite sentWith_app, length_app. lia.
Qed.

(** X13. Whatever the loop adds to the inventory is the zero-value
    placeholder: an entry of the inventory it leaves was there before,
    unchanged, or sits under a key that was absent and is [Stack{}]. *)
Theorem watch_adds_only_placeholders config events ers sMap w
    (k : string) (s : Stack.t) :
  valueOf (Run_watch config events ers sMap w) !! k = Some s →
  sMap !! k = Some s ∨ (sMap !! k = None ∧ s = Stack.zero).
Proof.
  revert k s.
  apply (Run_watch_ind config ers
           (λ m m' _,
              (∀ k v, m !! k = Some v → m' !! k = Some v)
              ∧ ∀ k s, m' !! k = Some s →
                  m !! k = Some s ∨ (m !! k = None ∧ s = Stack.zero))).
  - intros m. split; [done|]. intros k s Hk. by left.
  - intros m line _ _ _. split; [done|]. intros k s Hk. by left.
  - intros m node stack w'. split.
    { intros k v. apply manageStack_preserves. }
    intros k s. rewrite manageStack_inventory.
    destruct (ers !! node) as [v1|]; [|by left].
    destruct (m !! keyOf v1 stack) as [s0|] eqn:Hs; [by left|].
    destruct (decide (keyOf v1 stack = k)) as [<-|Hne].
    + rewrite lookup_insert_eq. intros [= <-]. by right.
    + rewrite lookup_insert_ne by done. by left.
  - intros m1 m2 m3 t1 t2 [Hk1 Hn1] [Hk2 Hn2]. split; [by auto|].
    intros k s H3. destruct (Hn2 k s H3) as [H2|[H2 ->]].
    + by apply Hn1.
    + right. split; [|done].
      destruct (m1 !! k) as [v|] eqn:H1; [|done].
      apply Hk1 in H1. congruence.
Qed.

(** X14. While the server knows no endpoint, the loop sends no request,
    reads no file and leaves the inventory as it is, whatever the events. *)
Theorem watch_without_endpoints_is_idle config events sMap w :
  valueOf (Run_watch config events ∅ sMap w) = sMap
  ∧ requests (traceOf (Run_watch config events ∅ sMap w)) = []
  ∧ filesRead (traceOf (Run_watch config events ∅ sMap w)) = []
  ∧ errorLines (traceOf (Run_watch config events ∅ sMap w)) = [].
Proof.
  apply (Run_watch_ind config ∅
           (λ m m' t, m' = m ∧ requests t = [] ∧ filesRead t = []
                      ∧ errorLines t = [])).
  - done.
  - done.
  - intros m node stack w'. unfold manageStack. by rewrite lookup_empty.
  - intros m1 m2 m3 t1 t2 (-> & Hq1 & Hf1 & He1) (-> & Hq2 & Hf2 & He2).
    by rewrite requests_app, filesRead_app, errorLines_app, Hq1, Hq2, Hf1, Hf2,
      He1, He2.
Qed.

End WatchLoop.

(** ** More runs on the demonstration platform *)

Section MoreDemoRuns.
Import Demo.

(** [app] listed twice on endpoint 3 has one key. *)
Lemma composite_key_determines_id_and_name_witness :
  Stack.EndpointId stack9 = 3 ∧ Stack.Name stack9 = "app"
  ∧ Endpoint.ID web = 3.
Proof.
  destruct composite_key_determines_id_and_name as [Hstack Hkey].
  destruct (Hstack stack9
              {| Stack.ID := 10; Stack.Name := "app"; Stack.Status := 2;
                 Stack.EndpointId := 3 |} eq_refl) as [H1 H2].
  destruct (Hkey web {| Endpoint.ID := 3; Endpoint.Name := "other" |}
              "app" "app" eq_refl) as [H3 _].
  split_and!; [exact H1 | exact H2 | exact H3].
Defined.


Lemma startup_tables_witness :
  ∃ st, valueOf (Run_startup flags (world "" false)) = Ok st
        ∧ Started.endpointsByName st !! "web" = Some web
        ∧ Started.stacksById st !! "3-app" = None.
Proof.
  assert (∃ st, valueOf (Run_startup flags (world "" false)) = Ok st) as [st Hst].
  { eexists. vm_compute. reflexivity. }
  exists st. split; [exact Hst|].
  destruct (startup_tables flags (world "" false) st Hst)
    as (bodyE & bodyS & w1 & w2 & w3 & endpoints & stacks
        & HE & HdE & HS & HdS & _ & _ & Hers & Hinv & _).
  injection HdE as <-. injection HdS as <-.
  split; [exact (Hers "web") | exact (Hinv "3-app")].
Defined.

(** The server holds other content than the compose file. *)
Lemma put_only_after_differing_fetch_witness :
  ∃ (sf : string) (w1 : World) (s : Stack.t) (body : string) (w2 : World)
    (sfc : CreateStackRequest.t) (bodys : string),
    os_ReadFile (composePath "web" "app") (world "other" false) = (Ok sf, w1)
    ∧ known !! keyOf web "app" = Some s
    ∧ client_Do (getFile config (Stack.ID s)) w1 = (Ok body, w2)
    ∧ Decode body = Ok sfc
    ∧ CreateStackRequest.StackFileContent sfc ≠ sf
    ∧ Marshal {| BodyComposeUpdate.StackFileContent := sf;
                 BodyComposeUpdate.PullImage := true |} = Ok bodys
    ∧ putStack config 9 3 "services: {}:true"
      = putStack config (Stack.ID s) (Endpoint.ID web) bodys.
Proof.
  refine (put_only_after_differing_fetch (Platform0:=platform)
            config "web" "app" web known
            (world "other" false) (putStack config 9 3 "services: {}:true") _).
  vm_compute. apply list_elem_of_singleton. reflexivity.
Defined.

(** An empty inventory and a readable compose file. *)
Lemma stack_not_found_needs_missing_entry_witness :
  updateStack config "web" "app" web ∅ (world "" false)
  = (Some (Errorf "stack %s not found on node %s" [Str "app"; Str "web"]),
     world "" false, [ReadFile "./stacks/web/app/docker-compose.yml"]).
Proof.
  apply (proj1 (stack_not_found_needs_missing_entry config "web" "app" ∅
                  (world "" false)) web compose (world "" false)).
  - apply lookup_empty.
  - reflexivity.
Defined.

(** A create that the server accepts, and one whose compose file is
    missing. *)
Lemma create_posts_name_and_content_witness :
  traceOf (createStack config "web" "app" web (world "" false))
  = [ReadFile "./stacks/web/app/docker-compose.yml";
     Do (postStack config 3 "app:services: {}")]
  ∧ createStack config "web" "other" web (world "" false)
    = (Some (ErrorfE "failed to read file './stacks/%s/%s/docker-compose.yml': %w"
               [Str "web"; Str "other"] (LibError "no such file or directory")),
       world "" false, [ReadFile "./stacks/web/other/docker-compose.yml"]).
Proof.
  split.
  - exact (proj1 (proj2 (create_posts_name_and_content config "web" "app" web
                           (world "" false))
                    compose (world "" false) "app:services: {}"
                    eq_refl eq_refl eq_refl)).
  - exact (proj1 (create_posts_name_and_content config "web" "other" web
                    (world "" false))
             (LibError "no such file or directory") (world "" false) eq_refl).
Defined.

(** One update of [app] with other content on the server. *)
Lemma manageStack_effects_are_bounded_witness :
  filesRead (traceOf (manageStack config "web" "app" ers known (world "other" false)))
  = ["./stacks/web/app/docker-compose.yml"]
  ∧ (length (requests (traceOf (manageStack config "web" "app" ers known
                                  (world "other" false)))) ≤ 2)%nat.
Proof.
  assert (ers !! "web" = Some web) as Hweb by reflexivity.
  destruct (manageStack_effects_are_bounded config "web" "app" ers known
              (world "other" false) web Hweb) as (Hread & Hlen & _).
  split; [exact Hread | exact Hlen].
Defined.

(** The root itself, and a compose file below it. *)
Lemma watch_drops_paths_with_fewer_than_two_separators_witness :
  Run_watchEvent config "/stacks" ers known (world "" false)
  = (known, world "" false, [Printf "skip path: %s" [Str "/stacks"]])
  ∧ ∃ node stack,
      hasByte "/" node = false ∧ hasByte "/" stack = false ∧
      Run_watchEvent config "/stacks/web/app/docker-compose.yml" ers known
        (world "" false)
      = bind (emit (Printf "deploy: %s/%s" [Str node; Str stack]))
          (λ _, manageStack config node stack ers known) (world "" false).
Proof.
  split.
  - apply (watch_drops_paths_with_fewer_than_two_separators config "/stacks"
             ers known (world "" false)).
    vm_compute. lia.
  - apply (watch_drops_paths_with_fewer_than_two_separators config
             "/stacks/web/app/docker-compose.yml" ers known (world "" false)).
    vm_compute. lia.
Defined.

(** The [POST] of a first event for [app]. *)
Lemma watch_requests_carry_the_api_key_witness :
  Request.Header (postStack config 3 "app:services: {}") = [("X-API-Key", "secret")]
  ∧ Request.Method (postStack config 3 "app:services: {}") ∈ ["GET"; "PUT"; "POST"].
Proof.
  refine (proj2 (watch_requests_carry_the_api_key config
                   ["/stacks/web/app/docker-compose.yml"] ers ∅ (world "" false)
                   (postStack config 3 "app:services: {}") _)).
  vm_compute. apply list_elem_of_singleton. reflexivity.
Defined.

(** After a first event for [app], the entry of [app] is the placeholder. *)
Lemma watch_adds_only_placeholders_witness :
  (∅ : gmap string Stack.t) !! "3-app" = Some Stack.zero
  ∨ ((∅ : gmap string Stack.t) !! "3-app" = None ∧ Stack.zero = Stack.zero).
Proof.
  apply (watch_adds_only_placeholders config
           ["/stacks/web/app/docker-compose.yml"] ers ∅ (world "" true)).
  vm_compute. reflexivity.
Defined.

End MoreDemoRuns.
